(** * python-ironicclient: resource fields, URL joining and error mapping

    Part I holds the programs: [ironicclient/v1/resource_fields.py] (class
    [Resource]) and the HTTP helpers that [ironicclient/tests/test_http.py]
    exercises. Part II holds their properties. *)

From Stdlib Require Import Ascii.
From stdpp Require Import gmap strings list fin_maps pretty.

(** Python outcomes: a call returns a value or raises. *)

(** A ValueError of [check_param_fields] is kept as the two values that its
    text is formatted from, the name of the parameter and the set of unknown
    identifiers: the text lists the set in the iteration order of a Python
    set, which depends on the hash seed and on how the set was built, so the
    error does not fix one text (see [ValueError_text]). *)
Inductive exn : Type :=
| ValueError (param_name : string) (not_existing : gset string)
| KeyError (key : string).

Inductive outcome (A : Type) : Type :=
| Returned (a : A)
| Raised (e : exn).
Arguments Returned {A} a.
Arguments Raised {A} e.

(** * Part I: the programs *)

Module ResourceFields.

(** The class attribute [Resource.FIELDS], in the order of the dict display.
    A dict display inserts its items from left to right. *)
Definition FIELDS_items : list (string * string) := [
    ("address", "Address");
    ("async", "Async");
    ("attach", "Response is attachment");
    ("boot_index", "Boot Index");
    ("chassis_uuid", "Chassis UUID");
    ("clean_step", "Clean Step");
    ("console_enabled", "Console Enabled");
    ("created_at", "Created At");
    ("default_boot_interface", "Default Boot Interface");
    ("default_console_interface", "Default Console Interface");
    ("default_deploy_interface", "Default Deploy Interface");
    ("default_inspect_interface", "Default Inspect Interface");
    ("default_management_interface", "Default Management Interface");
    ("default_network_interface", "Default Network Interface");
    ("default_power_interface", "Default Power Interface");
    ("default_raid_interface", "Default RAID Interface");
    ("default_storage_interface", "Default Storage Interface");
    ("default_vendor_interface", "Default Vendor Interface");
    ("description", "Description");
    ("driver", "Driver");
    ("driver_info", "Driver Info");
    ("driver_internal_info", "Driver Internal Info");
    ("enabled_boot_interfaces", "Enabled Boot Interfaces");
    ("enabled_console_interfaces", "Enabled Console Interfaces");
    ("enabled_deploy_interfaces", "Enabled Deploy Interfaces");
    ("enabled_inspect_interfaces", "Enabled Inspect Interfaces");
    ("enabled_management_interfaces", "Enabled Management Interfaces");
    ("enabled_network_interfaces", "Enabled Network Interfaces");
    ("enabled_power_interfaces", "Enabled Power Interfaces");
    ("enabled_raid_interfaces", "Enabled RAID Interfaces");
    ("enabled_storage_interfaces", "Enabled Storage Interfaces");
    ("enabled_vendor_interfaces", "Enabled Vendor Interfaces");
    ("extra", "Extra");
    ("hosts", "Active host(s)");
    ("http_methods", "Supported HTTP methods");
    ("inspection_finished_at", "Inspection Finished At");
    ("inspection_started_at", "Inspection Started At");
    ("instance_info", "Instance Info");
    ("instance_uuid", "Instance UUID");
    ("internal_info", "Internal Info");
    ("last_error", "Last Error");
    ("maintenance", "Maintenance");
    ("maintenance_reason", "Maintenance Reason");
    ("mode", "Mode");
    ("name", "Name");
    ("node_uuid", "Node UUID");
    ("power_state", "Power State");
    ("properties", "Properties");
    ("provision_state", "Provisioning State");
    ("provision_updated_at", "Provision Updated At");
    ("raid_config", "Current RAID configuration");
    ("reservation", "Reservation");
    ("resource_class", "Resource Class");
    ("target_power_state", "Target Power State");
    ("target_provision_state", "Target Provision State");
    ("target_raid_config", "Target RAID configuration");
    ("type", "Type");
    ("updated_at", "Updated At");
    ("uuid", "UUID");
    ("volume_id", "Volume ID");
    ("volume_type", "Driver Volume Type");
    ("local_link_connection", "Local Link Connection");
    ("pxe_enabled", "PXE boot enabled");
    ("portgroup_uuid", "Portgroup UUID");
    ("boot_interface", "Boot Interface");
    ("console_interface", "Console Interface");
    ("deploy_interface", "Deploy Interface");
    ("inspect_interface", "Inspect Interface");
    ("management_interface", "Management Interface");
    ("network_interface", "Network Interface");
    ("power_interface", "Power Interface");
    ("raid_interface", "RAID Interface");
    ("storage_interface", "Storage Interface");
    ("vendor_interface", "Vendor Interface");
    ("standalone_ports_supported", "Standalone Ports Supported");
    ("physical_network", "Physical Network");
    ("id", "ID");
    ("connector_id", "Connector ID")
  ].

Definition dict_display (items : list (string * string)) : gmap string string :=
  foldl (λ d kv, <[kv.1 := kv.2]> d) ∅ items.

Definition FIELDS : gmap string string := dict_display FIELDS_items.

(** An instance of [Resource] while [__init__] runs: each attribute is unset
    until it is assigned. *)
Record instance : Type := Instance {
  _fields : option (list string);
  _labels : option (list string);
  _sort_fields : option (list string);
  _sort_labels : option (list string)
}.

Definition new_instance : instance := Instance None None None None.

(** Statements of a method body: they read and write [self] and either go on
    with a value or raise; what was assigned before a raise stays assigned. *)
Definition M (A : Type) : Type := instance → instance * outcome A.

Definition ret {A} (a : A) : M A := λ self, (self, Returned a).
Definition raise {A} (e : exn) : M A := λ self, (self, Raised e).
Definition bind {A B} (c : M A) (k : A → M B) : M B :=
  λ self, match c self with
          | (self', Returned a) => k a self'
          | (self', Raised e) => (self', Raised e)
          end.
Definition lift {A} (o : outcome A) : M A := λ self, (self, o).

Notation "'let!' x ':=' c 'in' k" := (bind c (λ x, k))
  (at level 10, x name, c at level 100, k at level 200).
Notation "c ';;;' k" := (bind c (λ _, k))
  (at level 100, k at level 200, right associativity).

Definition set_fields (v : list string) : M unit :=
  λ self, (Instance (Some v) (_labels self) (_sort_fields self) (_sort_labels self), Returned tt).
Definition set_labels (v : list string) : M unit :=
  λ self, (Instance (_fields self) (Some v) (_sort_fields self) (_sort_labels self), Returned tt).
Definition set_sort_fields (v : list string) : M unit :=
  λ self, (Instance (_fields self) (_labels self) (Some v) (_sort_labels self), Returned tt).
Definition set_sort_labels (v : list string) : M unit :=
  λ self, (Instance (_fields self) (_labels self) (_sort_fields self) (Some v), Returned tt).

(** [sep.join(items)] *)
Fixpoint join (sep : string) (items : list string) : string :=
  match items with
  | [] => ""
  | [x] => x
  | x :: rest => x +:+ sep +:+ join sep rest
  end.

(** The text of the ValueError of [check_param_fields] when the set
    [not_existing] is iterated in the order [listed]; the translation
    function [_] is taken as the identity. *)
Definition unknown_message (param_name : string) (listed : list string) : string :=
  param_name +:+ " specified with value not contained in field_ids.  Unknown value(s): "
             +:+ join ", " listed.

(** An order in which a set may be iterated: each member once. Which of
    these orders Python takes is not fixed by the members of the set. *)
Definition iteration_order (s : gset string) (listed : list string) : Prop :=
  NoDup listed ∧ ∀ x, x ∈ listed ↔ x ∈ s.

(** The texts that a ValueError of [check_param_fields] may have: one for
    each order in which [', '.join(not_existing)] may iterate the set. *)
Definition ValueError_text (param_name : string) (not_existing : gset string)
    (msg : string) : Prop :=
  ∃ listed, iteration_order not_existing listed ∧ msg = unknown_message param_name listed.

(** The nested function [check_param_fields] of [__init__]; it closes over
    [field_ids]. *)
Definition check_param_fields (field_ids : list string)
    (param_name : string) (param_fields : list string) : M unit :=
  let not_existing : gset string := list_to_set param_fields ∖ list_to_set field_ids in
  if decide (not_existing = ∅) then ret tt
  else raise (ValueError param_name not_existing).

(** Truth value of a str: only the empty string is false. *)
Definition truthy (s : string) : bool :=
  match s with
  | EmptyString => false
  | String _ _ => true
  end.

(** [self.FIELDS[x]] *)
Definition FIELDS_getitem (x : string) : outcome string :=
  match FIELDS !! x with
  | Some label => Returned label
  | None => Raised (KeyError x)
  end.

(** [override_labels.get(x) or self.FIELDS[x]] *)
Definition label_for (override_labels : gmap string string) (x : string) : outcome string :=
  match override_labels !! x with
  | Some label => if truthy label then Returned label else FIELDS_getitem x
  | None => FIELDS_getitem x
  end.

(** The list comprehension [[f(x) for x in xs]]: elements are evaluated from
    left to right and the first raise aborts it. *)
Fixpoint comprehension {A B} (f : A → outcome B) (xs : list A) : outcome (list B) :=
  match xs with
  | [] => Returned []
  | x :: rest =>
      match f x with
      | Raised e => Raised e
      | Returned y =>
          match comprehension f rest with
          | Raised e => Raised e
          | Returned ys => Returned (y :: ys)
          end
      end
  end.

(** [override_labels.keys()] *)
Definition keys (d : gmap string string) : list string := (map_to_list d).*1.

(** [Resource.__init__(self, field_ids, sort_excluded=None, override_labels=None)] *)
Definition __init__ (field_ids : list string)
    (sort_excluded : option (list string))
    (override_labels : option (gmap string string)) : M unit :=
  let! override_labels :=
    match override_labels with
    | None => ret ∅
    | Some d => check_param_fields field_ids "override_labels" (keys d) ;;; ret d
    end in
  set_fields field_ids ;;;
  let! labels := lift (comprehension (label_for override_labels) field_ids) in
  set_labels labels ;;;
  let! sort_excluded :=
    match sort_excluded with
    | None => ret []
    | Some l => check_param_fields field_ids "sort_excluded" l ;;; ret l
    end in
  let sort_fields := filter (λ x, x ∉ sort_excluded) field_ids in
  set_sort_fields sort_fields ;;;
  let! sort_labels := lift (comprehension (label_for override_labels) sort_fields) in
  set_sort_labels sort_labels.

(** The call [Resource(field_ids, sort_excluded, override_labels)]: a fresh
    instance is initialised and is the value of the call only if [__init__]
    returns. *)
Definition Resource (field_ids : list string)
    (sort_excluded : option (list string))
    (override_labels : option (gmap string string)) : outcome instance :=
  match __init__ field_ids sort_excluded override_labels new_instance with
  | (self, Returned _) => Returned self
  | (_, Raised e) => Raised e
  end.

(** The read-only properties; [None] stands for an attribute that was never
    assigned. *)
Definition fields (self : instance) : option (list string) := _fields self.
Definition labels (self : instance) : option (list string) := _labels self.
Definition sort_fields (self : instance) : option (list string) := _sort_fields self.
Definition sort_labels (self : instance) : option (list string) := _sort_labels self.

(** ** The resources of the module

    Each assignment of the module body calls [Resource]; the value is the
    outcome of that call. *)

Definition CHASSIS_DETAILED_RESOURCE : outcome instance :=
  Resource
    ["uuid"; "description"; "created_at"; "updated_at"; "extra"]
    (Some ["extra"])
    None.

Definition CHASSIS_RESOURCE : outcome instance :=
  Resource
    ["uuid"; "description"]
    None
    None.

Definition NODE_DETAILED_RESOURCE : outcome instance :=
  Resource
    ["chassis_uuid"; "created_at"; "clean_step"; "console_enabled";
     "driver"; "driver_info"; "driver_internal_info"; "extra";
     "instance_info"; "instance_uuid"; "last_error"; "maintenance";
     "maintenance_reason"; "power_state"; "properties"; "provision_state";
     "provision_updated_at"; "raid_config"; "reservation";
     "resource_class"; "target_power_state"; "target_provision_state";
     "target_raid_config"; "updated_at"; "inspection_finished_at";
     "inspection_started_at"; "uuid"; "name"; "boot_interface";
     "console_interface"; "deploy_interface"; "inspect_interface";
     "management_interface"; "network_interface"; "power_interface";
     "raid_interface"; "storage_interface"; "vendor_interface"]
    (Some ["chassis_uuid"; "clean_step"; "driver_info";
     "driver_internal_info"; "extra"; "instance_info"; "properties";
     "raid_config"; "target_raid_config"])
    None.

Definition NODE_RESOURCE : outcome instance :=
  Resource
    ["uuid"; "name"; "instance_uuid"; "power_state"; "provision_state";
     "maintenance"]
    None
    None.

Definition VENDOR_PASSTHRU_METHOD_RESOURCE : outcome instance :=
  Resource
    ["name"; "http_methods"; "async"; "description"; "attach"]
    None
    None.

Definition PORT_DETAILED_RESOURCE : outcome instance :=
  Resource
    ["uuid"; "address"; "created_at"; "extra"; "node_uuid";
     "local_link_connection"; "portgroup_uuid"; "pxe_enabled";
     "physical_network"; "updated_at"; "internal_info"]
    (Some ["extra"; "node_uuid"; "portgroup_uuid"; "internal_info"])
    None.

Definition PORT_RESOURCE : outcome instance :=
  Resource
    ["uuid"; "address"]
    None
    None.

Definition PORTGROUP_DETAILED_RESOURCE : outcome instance :=
  Resource
    ["uuid"; "address"; "created_at"; "extra";
     "standalone_ports_supported"; "node_uuid"; "name"; "updated_at";
     "internal_info"; "mode"; "properties"]
    (Some ["extra"; "node_uuid"; "internal_info"; "properties"])
    None.

Definition PORTGROUP_RESOURCE : outcome instance :=
  Resource
    ["uuid"; "address"; "name"]
    None
    None.

Definition VIF_RESOURCE : outcome instance :=
  Resource
    ["id"]
    None
    None.

Definition DRIVER_DETAILED_RESOURCE : outcome instance :=
  Resource
    ["name"; "type"; "hosts"; "default_boot_interface";
     "default_console_interface"; "default_deploy_interface";
     "default_inspect_interface"; "default_management_interface";
     "default_network_interface"; "default_power_interface";
     "default_raid_interface"; "default_storage_interface";
     "default_vendor_interface"; "enabled_boot_interfaces";
     "enabled_console_interfaces"; "enabled_deploy_interfaces";
     "enabled_inspect_interfaces"; "enabled_management_interfaces";
     "enabled_network_interfaces"; "enabled_power_interfaces";
     "enabled_raid_interfaces"; "enabled_storage_interfaces";
     "enabled_vendor_interfaces"]
    None
    (Some {["name" := "Supported driver(s)"]}).

Definition DRIVER_RESOURCE : outcome instance :=
  Resource
    ["name"; "hosts"]
    None
    (Some {["name" := "Supported driver(s)"]}).

Definition VOLUME_CONNECTOR_DETAILED_RESOURCE : outcome instance :=
  Resource
    ["uuid"; "node_uuid"; "type"; "connector_id"; "extra"; "created_at";
     "updated_at"]
    (Some ["node_uuid"; "extra"])
    None.

Definition VOLUME_CONNECTOR_RESOURCE : outcome instance :=
  Resource
    ["uuid"; "node_uuid"; "type"; "connector_id"]
    (Some ["node_uuid"])
    None.

Definition VOLUME_TARGET_DETAILED_RESOURCE : outcome instance :=
  Resource
    ["uuid"; "node_uuid"; "volume_type"; "properties"; "boot_index";
     "extra"; "volume_id"; "created_at"; "updated_at"]
    (Some ["node_uuid"; "extra"; "properties"])
    None.

Definition VOLUME_TARGET_RESOURCE : outcome instance :=
  Resource
    ["uuid"; "node_uuid"; "volume_type"; "boot_index"; "volume_id"]
    (Some ["node_uuid"])
    None.

(** The assignments in the order in which the module body runs them. *)
Definition module_body : list (string * outcome instance) := [
    ("CHASSIS_DETAILED_RESOURCE", CHASSIS_DETAILED_RESOURCE);
    ("CHASSIS_RESOURCE", CHASSIS_RESOURCE);
    ("NODE_DETAILED_RESOURCE", NODE_DETAILED_RESOURCE);
    ("NODE_RESOURCE", NODE_RESOURCE);
    ("VENDOR_PASSTHRU_METHOD_RESOURCE", VENDOR_PASSTHRU_METHOD_RESOURCE);
    ("PORT_DETAILED_RESOURCE", PORT_DETAILED_RESOURCE);
    ("PORT_RESOURCE", PORT_RESOURCE);
    ("PORTGROUP_DETAILED_RESOURCE", PORTGROUP_DETAILED_RESOURCE);
    ("PORTGROUP_RESOURCE", PORTGROUP_RESOURCE);
    ("VIF_RESOURCE", VIF_RESOURCE);
    ("DRIVER_DETAILED_RESOURCE", DRIVER_DETAILED_RESOURCE);
    ("DRIVER_RESOURCE", DRIVER_RESOURCE);
    ("VOLUME_CONNECTOR_DETAILED_RESOURCE", VOLUME_CONNECTOR_DETAILED_RESOURCE);
    ("VOLUME_CONNECTOR_RESOURCE", VOLUME_CONNECTOR_RESOURCE);
    ("VOLUME_TARGET_DETAILED_RESOURCE", VOLUME_TARGET_DETAILED_RESOURCE);
    ("VOLUME_TARGET_RESOURCE", VOLUME_TARGET_RESOURCE)
  ].

(** Running the module body: the assignments are made in order and the first
    raise aborts the import. The result binds each name to its instance. *)
Definition import_module : outcome (list (string * instance)) :=
  comprehension
    (λ assignment : string * outcome instance,
       match assignment.2 with
       | Returned r => Returned (assignment.1, r)
       | Raised e => Raised e
       end)
    module_body.

(** The resources that come as a short one, for listings, and a detailed one,
    short first. *)
Definition short_and_detailed : list (outcome instance * outcome instance) := [
    (CHASSIS_RESOURCE, CHASSIS_DETAILED_RESOURCE);
    (NODE_RESOURCE, NODE_DETAILED_RESOURCE);
    (PORT_RESOURCE, PORT_DETAILED_RESOURCE);
    (PORTGROUP_RESOURCE, PORTGROUP_DETAILED_RESOURCE);
    (DRIVER_RESOURCE, DRIVER_DETAILED_RESOURCE);
    (VOLUME_CONNECTOR_RESOURCE, VOLUME_CONNECTOR_DETAILED_RESOURCE);
    (VOLUME_TARGET_RESOURCE, VOLUME_TARGET_DETAILED_RESOURCE)
  ].

(** ** Vocabulary of the statements *)

(** The keys of [override_labels] and the members of [sort_excluded], with the
    defaults of the signature. *)
Definition override_keys (override_labels : option (gmap string string)) : list string :=
  match override_labels with
  | None => []
  | Some d => keys d
  end.

Definition overrides (override_labels : option (gmap string string)) : gmap string string :=
  default ∅ override_labels.

Definition excluded (sort_excluded : option (list string)) : list string :=
  default [] sort_excluded.

(** A parameter holds an identifier that is not in [field_ids]. *)
Definition has_unknown (param_fields field_ids : list string) : Prop :=
  ∃ x, x ∈ param_fields ∧ x ∉ field_ids.

Definition unknown_ids (param_fields field_ids : list string) : gset string :=
  list_to_set param_fields ∖ list_to_set field_ids.

(** [x] has a label: a non-empty override or an entry of [FIELDS]. *)
Definition resolves (d : gmap string string) (x : string) : Prop :=
  (∃ l, d !! x = Some l ∧ l ≠ "") ∨ is_Some (FIELDS !! x).

(** [l] is the label of [x]: the non-empty override when there is one, else
    the entry of [FIELDS]. *)
Definition is_label (d : gmap string string) (x l : string) : Prop :=
  (d !! x = Some l ∧ l ≠ "") ∨
  ((d !! x = None ∨ d !! x = Some "") ∧ FIELDS !! x = Some l).

(** The four ways a construction can end. *)
Inductive ending (field_ids : list string) (sort_excluded : option (list string))
    (override_labels : option (gmap string string)) : instance → outcome unit → Prop :=
| bad_override :
    has_unknown (override_keys override_labels) field_ids →
    ending field_ids sort_excluded override_labels new_instance
      (Raised (ValueError "override_labels"
                 (unknown_ids (override_keys override_labels) field_ids)))
| no_label pre k post :
    ¬ has_unknown (override_keys override_labels) field_ids →
    field_ids = pre ++ k :: post →
    Forall (resolves (overrides override_labels)) pre →
    ¬ resolves (overrides override_labels) k →
    ending field_ids sort_excluded override_labels
      (Instance (Some field_ids) None None None) (Raised (KeyError k))
| bad_sort_excluded ls :
    ¬ has_unknown (override_keys override_labels) field_ids →
    Forall2 (is_label (overrides override_labels)) field_ids ls →
    has_unknown (excluded sort_excluded) field_ids →
    ending field_ids sort_excluded override_labels
      (Instance (Some field_ids) (Some ls) None None)
      (Raised (ValueError "sort_excluded"
                 (unknown_ids (excluded sort_excluded) field_ids)))
| constructed ls sls :
    ¬ has_unknown (override_keys override_labels) field_ids →
    Forall2 (is_label (overrides override_labels)) field_ids ls →
    ¬ has_unknown (excluded sort_excluded) field_ids →
    Forall2 (is_label (overrides override_labels))
      (filter (λ x, x ∉ excluded sort_excluded) field_ids) sls →
    ending field_ids sort_excluded override_labels
      (Instance (Some field_ids) (Some ls)
         (Some (filter (λ x, x ∉ excluded sort_excluded) field_ids))
         (Some sls))
      (Returned tt).

(** The label rule in the words of the specification: the override whenever
    one is given, the empty one included, else the entry of [FIELDS]. It is
    compared with [is_label], the rule of the code. *)
Definition given_label (d : gmap string string) (x l : string) : Prop :=
  d !! x = Some l ∨ (d !! x = None ∧ FIELDS !! x = Some l).

End ResourceFields.

Module HTTP.

(** ** URL normalizer *)

(** A run of [n] slashes. *)
Fixpoint slashes (n : nat) : string :=
  match n with
  | O => ""
  | S n' => String "/"%char (slashes n')
  end.

Definition starts_with_slash (s : string) : Prop := ∃ rest, s = String "/"%char rest.
Definition ends_with_slash (s : string) : Prop := ∃ stem, s = stem +:+ "/".

(** A string without its leading slashes. *)
Fixpoint lstrip_slash (s : string) : string :=
  match s with
  | String "/"%char rest => lstrip_slash rest
  | _ => s
  end.

(** A string without its trailing slashes. *)
Fixpoint rstrip_slash (s : string) : string :=
  match s with
  | "" => ""
  | String c rest =>
      match rstrip_slash rest with
      | "" => if Ascii.eqb c "/"%char then "" else String c ""
      | kept => String c kept
      end
  end.

(** A parser for the examples: the path component is what follows the
    scheme, the [://] and the host. *)
Fixpoint from_first_slash (s : string) : string :=
  match s with
  | "" => ""
  | String "/"%char _ => s
  | String _ rest => from_first_slash rest
  end.

Fixpoint after_scheme (s : string) : option string :=
  match s with
  | String ":"%char (String "/"%char (String "/"%char rest)) => Some rest
  | String _ rest => after_scheme rest
  | "" => None
  end.

Definition simple_path (endpoint : string) : string :=
  match after_scheme endpoint with
  | Some host_and_path => from_first_slash host_and_path
  | None => endpoint
  end.

Section UrlNormalizer.

(** The path component of an endpoint, as the URL parser of the standard
    library gives it. *)
Variable urlparse_path : string → string.

(** Modelled from the spec: [ironicclient/common/http.py], which holds
    [HTTPClient._make_connection_url], is not among the sources. Section
    4.1: the scheme and host of the base are discarded, and exactly one
    slash separates the path portion of the base from the relative path,
    however many trailing slashes the base has and however many leading
    slashes the relative path has. *)
Definition _make_connection_url (endpoint url : string) : string :=
  rstrip_slash (urlparse_path endpoint) +:+ "/" +:+ lstrip_slash url.

End UrlNormalizer.

(** A path that is already normalized: one slash, then something that does
    not begin with a slash. *)
Definition single_leading_slash (url : string) : Prop :=
  ∃ rest, url = String "/"%char rest ∧ ¬ starts_with_slash rest.

(** ** Error mapper *)

(** What the JSON decoder returns. *)
#[warnings="-register-all"] Inductive json : Type :=
| JNull
| JBool (b : bool)
| JNumber (n : Z)
| JString (s : string)
| JArray (items : list json)
| JObject (members : list (string * json)).

(** The member of a decoded object with a given name; as in a Python dict,
    the last member with that name counts. *)
Fixpoint dict_get (members : list (string * json)) (key : string) : option json :=
  match members with
  | [] => None
  | (k, v) :: rest =>
      match dict_get rest key with
      | Some later => Some later
      | None => if decide (k = key) then Some v else None
      end
  end.

Definition quote : ascii := "034"%char.
Definition backslash : ascii := "092"%char.
Definition newline : string := String "010"%char "".

(** The kinds of error: the three that the spec names, a kind of its own for
    every other standard code, and the generic one, which carries the raw
    code. *)
Inductive error_kind : Type :=
| HTTPNotFound
| HTTPConflict
| HTTPInternalServerError
| HTTPStandard (status : Z) (name : string)
| HTTPException (raw_code : Z).

Record http_error : Type := HttpError {
  kind : error_kind;
  code : Z;
  message : string
}.

(** Modelled from the spec: the human name of a status code is the name of
    its kind, as in the message [HTTPInternalServerError (HTTP 500)] that
    [test_server_exception_empty_body] expects. *)
Definition reason_phrase (k : error_kind) : string :=
  match k with
  | HTTPNotFound => "HTTPNotFound"
  | HTTPConflict => "HTTPConflict"
  | HTTPInternalServerError => "HTTPInternalServerError"
  | HTTPStandard _ name => name
  | HTTPException _ => "HTTPException"
  end.

(** A table for the examples, with one further standard code. *)
Definition example_kinds (status : Z) : option string :=
  if decide (status = 400%Z) then Some "HTTPBadRequest" else None.

Section ErrorMapper.

(** The JSON decoder of the standard library; [None] when the text is not
    valid JSON. *)
Variable loads : string → option json.

(** The standard status codes other than 404, 409 and 500, each with the
    name of its kind; [None] for a code that is not recognised. This is the
    rest of the table from status codes to error classes of
    [ironicclient/exc.py], which is not among the sources: section 4.2 says
    that every standard code has a kind of its own and names three of them. *)
Variable standard_kinds : Z → option string.

(** Modelled from the spec: section 4.2, the kind is chosen by the status
    code alone, one kind for each standard code; a code that is not
    recognised gets the generic kind, which carries the code. *)
Definition kind_of_status (status : Z) : error_kind :=
  if decide (status = 404%Z) then HTTPNotFound
  else if decide (status = 409%Z) then HTTPConflict
  else if decide (status = 500%Z) then HTTPInternalServerError
  else match standard_kinds status with
       | Some name => HTTPStandard status name
       | None => HTTPException status
       end.

(** Modelled from the spec: section 4.2, the generic message
    [<ReasonPhrase> (HTTP <code>)], with the code in decimal. *)
Definition generic_message (status : Z) : string :=
  reason_phrase (kind_of_status status) +:+ " (HTTP " +:+ pretty status +:+ ")".

(** Modelled from the spec: the error mapper of
    [ironicclient/common/http.py] and [ironicclient/exc.py] is not among the
    sources. Section 4.2: the body is decoded as a JSON object with a member
    [error_message], whose value is a string that holds a JSON object in
    turn; an absent or malformed body gives no envelope. *)
Definition error_envelope (body : option string) : list (string * json) :=
  match body with
  | None => []
  | Some text =>
      match loads text with
      | Some (JObject members) =>
          match dict_get members "error_message" with
          | Some (JString raw) =>
              match loads raw with
              | Some (JObject envelope) => envelope
              | _ => []
              end
          | _ => []
          end
      | _ => []
      end
  end.

(** Modelled from the spec: section 4.2, the message. A fault string that is
    present and not empty is the message, followed by a newline and the
    debug info when that is present; otherwise the message is the generic
    one. *)
Definition error_message (status : Z) (envelope : list (string * json)) : string :=
  match dict_get envelope "faultstring" with
  | Some (JString (String c rest)) =>
      match dict_get envelope "debuginfo" with
      | Some (JString debuginfo) => String c rest +:+ newline +:+ debuginfo
      | _ => String c rest
      end
  | _ => generic_message status
  end.

(** Modelled from the spec: section 4.2, a pure mapping from status and body
    to kind and message. *)
Definition map_error (status : Z) (body : option string) : http_error :=
  HttpError (kind_of_status status) status
    (error_message status (error_envelope body)).

End ErrorMapper.

(** ** A decoder and an encoder for the examples. They cover the JSON that
    the tests exchange: objects, arrays, strings with the escapes of quote,
    backslash and newline, integers, booleans and null. The theorems of Part II
    hold for every decoder. *)

Fixpoint skip_ws (s : string) : string :=
  match s with
  | String c rest => if Ascii.is_space c then skip_ws rest else s
  | "" => ""
  end.

(** The characters of a string literal after its opening quote, and what
    follows its closing quote. *)
Fixpoint parse_chars (s : string) : option (string * string) :=
  match s with
  | "" => None
  | String c rest =>
      if Ascii.eqb c quote then Some ("", rest)
      else if Ascii.eqb c backslash then
        match rest with
        | String e rest' =>
            let decoded :=
              if Ascii.eqb e quote then Some quote
              else if Ascii.eqb e backslash then Some backslash
              else if Ascii.eqb e "/"%char then Some "/"%char
              else if Ascii.eqb e "n"%char then Some "010"%char
              else if Ascii.eqb e "t"%char then Some "009"%char
              else if Ascii.eqb e "r"%char then Some "013"%char
              else None in
            match decoded, parse_chars rest' with
            | Some d, Some (chars, after) => Some (String d chars, after)
            | _, _ => None
            end
        | "" => None
        end
      else
        match parse_chars rest with
        | Some (chars, after) => Some (String c chars, after)
        | None => None
        end
  end.

Fixpoint parse_digits (acc : Z) (s : string) : Z * string :=
  match s with
  | String c rest =>
      match Ascii.is_nat c with
      | Some d => parse_digits (10 * acc + Z.of_nat d) rest
      | None => (acc, s)
      end
  | "" => (acc, "")
  end.

Definition parse_number (s : string) : option (json * string) :=
  match s with
  | String c rest =>
      if Ascii.eqb c "-"%char then
        match rest with
        | String d _ =>
            match Ascii.is_nat d with
            | Some _ => let (n, after) := parse_digits 0 rest in Some (JNumber (- n), after)
            | None => None
            end
        | "" => None
        end
      else
        match Ascii.is_nat c with
        | Some _ => let (n, after) := parse_digits 0 s in Some (JNumber n, after)
        | None => None
        end
  | "" => None
  end.

Fixpoint parse_value (fuel : nat) (s : string) : option (json * string) :=
  match fuel with
  | O => None
  | S fuel' =>
      match skip_ws s with
      | String "n" (String "u" (String "l" (String "l" after))) => Some (JNull, after)
      | String "t" (String "r" (String "u" (String "e" after))) => Some (JBool true, after)
      | String "f" (String "a" (String "l" (String "s" (String "e" after)))) =>
          Some (JBool false, after)
      | String "034" rest =>
          match parse_chars rest with
          | Some (chars, after) => Some (JString chars, after)
          | None => None
          end
      | String "[" rest =>
          match skip_ws rest with
          | String "]" after => Some (JArray [], after)
          | _ =>
              match parse_items fuel' rest with
              | Some (items, after) => Some (JArray items, after)
              | None => None
              end
          end
      | String "{" rest =>
          match skip_ws rest with
          | String "}" after => Some (JObject [], after)
          | _ =>
              match parse_members fuel' rest with
              | Some (members, after) => Some (JObject members, after)
              | None => None
              end
          end
      | other => parse_number other
      end
  end
with parse_items (fuel : nat) (s : string) : option (list json * string) :=
  match fuel with
  | O => None
  | S fuel' =>
      match parse_value fuel' s with
      | Some (item, after) =>
          match skip_ws after with
          | String "," rest =>
              match parse_items fuel' rest with
              | Some (items, after') => Some (item :: items, after')
              | None => None
              end
          | String "]" after' => Some ([item], after')
          | _ => None
          end
      | None => None
      end
  end
with parse_members (fuel : nat) (s : string) : option (list (string * json) * string) :=
  match fuel with
  | O => None
  | S fuel' =>
      match skip_ws s with
      | String "034" rest =>
          match parse_chars rest with
          | Some (name, after) =>
              match skip_ws after with
              | String ":" rest' =>
                  match parse_value fuel' rest' with
                  | Some (value, after') =>
                      match skip_ws after' with
                      | String "," rest'' =>
                          match parse_members fuel' rest'' with
                          | Some (members, after'') => Some ((name, value) :: members, after'')
                          | None => None
                          end
                      | String "}" after'' => Some ([(name, value)], after'')
                      | _ => None
                      end
                  | None => None
                  end
              | _ => None
              end
          | None => None
          end
      | _ => None
      end
  end.

Definition mini_loads (text : string) : option json :=
  match parse_value (S (String.length text)) text with
  | Some (v, after) =>
      match skip_ws after with
      | "" => Some v
      | _ => None
      end
  | None => None
  end.

(** The body of a string literal with its escapes. *)
Fixpoint escape (s : string) : string :=
  match s with
  | "" => ""
  | String c rest =>
      if Ascii.eqb c quote then String backslash (String quote (escape rest))
      else if Ascii.eqb c backslash then String backslash (String backslash (escape rest))
      else if Ascii.eqb c "010"%char then String backslash (String "n"%char (escape rest))
      else String c (escape rest)
  end.

Definition dumps_string (s : string) : string :=
  String quote (escape s +:+ String quote "").

(** [json.dumps] of a string or of [None]. *)
Definition dumps_optional (v : option string) : string :=
  match v with
  | Some s => dumps_string s
  | None => "null"
  end.

(** [HttpClientTest._get_error_body(faultstring, debuginfo)] of the tests:
    the envelope is dumped, and dumped again as the [error_message] member of
    the body. *)
Definition _get_error_body (faultstring debuginfo : option string) : string :=
  let raw_error_body :=
    "{" +:+ dumps_string "faultstring" +:+ ": " +:+ dumps_optional faultstring +:+ ", "
        +:+ dumps_string "debuginfo" +:+ ": " +:+ dumps_optional debuginfo +:+ "}" in
  "{" +:+ dumps_string "error_message" +:+ ": " +:+ dumps_string raw_error_body +:+ "}".

(** The trace of [test_server_exception_msg_and_traceback]: it holds quotes
    and backslashes. *)
Definition error_trace : string :=
  String quote "Traceback (most recent call last):"
    +:+ String backslash "n" +:+ String backslash "n  File "
    +:+ String backslash (String quote "/usr/local/lib/python2.7/...").

(** Truth value of a decoded JSON value, as Python takes it. *)
Definition json_truthy (v : json) : bool :=
  match v with
  | JNull => false
  | JBool b => b
  | JNumber n => negb (Z.eqb n 0)
  | JString "" => false
  | JString (String _ _) => true
  | JArray [] => false
  | JArray (_ :: _) => true
  | JObject [] => false
  | JObject (_ :: _) => true
  end.

(** The fault string is missing or false. *)
Definition falsy_faultstring (envelope : list (string * json)) : Prop :=
  match dict_get envelope "faultstring" with
  | None => True
  | Some v => json_truthy v = false
  end.

(** The bodies without a usable fault string: absent, malformed at one of the
    two levels, or with a fault string that is missing or false. *)
Inductive degraded (loads : string → option json) : option string → Prop :=
| body_absent :
    degraded loads None
| body_not_json text :
    loads text = None →
    degraded loads (Some text)
| body_not_an_object text v :
    loads text = Some v → (∀ members, v ≠ JObject members) →
    degraded loads (Some text)
| no_error_message text members :
    loads text = Some (JObject members) →
    dict_get members "error_message" = None →
    degraded loads (Some text)
| error_message_not_a_string text members v :
    loads text = Some (JObject members) →
    dict_get members "error_message" = Some v → (∀ raw, v ≠ JString raw) →
    degraded loads (Some text)
| error_message_not_json text members raw :
    loads text = Some (JObject members) →
    dict_get members "error_message" = Some (JString raw) →
    loads raw = None →
    degraded loads (Some text)
| error_message_not_an_object text members raw v :
    loads text = Some (JObject members) →
    dict_get members "error_message" = Some (JString raw) →
    loads raw = Some v → (∀ envelope, v ≠ JObject envelope) →
    degraded loads (Some text)
| faultstring_falsy text members raw envelope :
    loads text = Some (JObject members) →
    dict_get members "error_message" = Some (JString raw) →
    loads raw = Some (JObject envelope) →
    falsy_faultstring envelope →
    degraded loads (Some text).

(** The body decodes to [envelope]. *)
Definition decodes_to (loads : string → option json) (body : option string)
    (envelope : list (string * json)) : Prop :=
  ∃ text members raw,
    body = Some text ∧ loads text = Some (JObject members) ∧
    dict_get members "error_message" = Some (JString raw) ∧
    loads raw = Some (JObject envelope).

End HTTP.

(** * Part II: their properties *)

Module ResourceFieldsProofs.
Import ResourceFields.

(** ** Runs of the constructor *)

Example chassis_like_resource : Resource ["uuid"; "name"] (Some ["name"]) None
  = Returned (Instance (Some ["uuid"; "name"]) (Some ["UUID"; "Name"]) (Some ["uuid"]) (Some ["UUID"])).
Proof. vm_compute. reflexivity. Qed.

Example bogus_sort_excluded : Resource ["uuid"; "name"] (Some ["bogus"]) None
  = Raised (ValueError "sort_excluded" {["bogus"]}).
Proof. vm_compute. reflexivity. Qed.

(** ** Label lookup and comprehensions *)

Lemma truthy_true s : truthy s = true ↔ s ≠ "".
Proof. destruct s; simpl; split; congruence. Qed.

Lemma truthy_false s : truthy s = false ↔ s = "".
Proof. destruct s; simpl; split; congruence. Qed.

Lemma elem_of_keys (d : gmap string string) x : x ∈ keys d ↔ is_Some (d !! x).
Proof.
  unfold keys. rewrite list_elem_of_fmap. split.
  - intros [[k v] [-> Hin]]. apply elem_of_map_to_list in Hin. simpl. eauto.
  - intros [v Hv]. exists (x, v). split; [done|]. by apply elem_of_map_to_list.
Qed.

Lemma unknown_ids_empty param_fields field_ids :
  unknown_ids param_fields field_ids = ∅ ↔ ¬ has_unknown param_fields field_ids.
Proof.
  unfold unknown_ids, has_unknown. split.
  - intros He [x [Hx Hn]]. assert (x ∈ (∅ : gset string)) as Hbad; [|set_solver].
    rewrite <- He. set_solver.
  - intros Hn. apply set_eq. intros x. split; [|set_solver].
    intros Hx. exfalso. apply Hn. exists x. set_solver.
Qed.

Lemma check_param_fields_run field_ids param_name param_fields self :
  check_param_fields field_ids param_name param_fields self =
    (self, if decide (unknown_ids param_fields field_ids = ∅) then Returned tt
           else Raised (ValueError param_name (unknown_ids param_fields field_ids))).
Proof. unfold check_param_fields, unknown_ids. by case_decide. Qed.

Lemma label_for_Returned d x l : label_for d x = Returned l ↔ is_label d x l.
Proof.
  unfold label_for, is_label, FIELDS_getitem.
  destruct (d !! x) as [o|] eqn:Hd.
  - destruct (truthy o) eqn:Ht.
    + apply truthy_true in Ht. split.
      * intros [= ->]. by left.
      * intros [[[= ->] _]|[[?|[= ->]] _]]; done.
    + apply truthy_false in Ht. subst o. split.
      * destruct (FIELDS !! x); intros [= ->]. right. eauto.
      * intros [[[= <-] ?]|[_ ->]]; done.
  - split.
    + destruct (FIELDS !! x); intros [= ->]. right. eauto.
    + intros [[? _]|[_ ->]]; done.
Qed.

Lemma label_for_Raised d x e :
  label_for d x = Raised e ↔ e = KeyError x ∧ ¬ resolves d x.
Proof.
  unfold label_for, resolves, FIELDS_getitem.
  destruct (d !! x) as [o|] eqn:Hd.
  - destruct (truthy o) eqn:Ht.
    + apply truthy_true in Ht. split; [done|].
      intros [_ Hn]. exfalso. apply Hn. left. eauto.
    + apply truthy_false in Ht. subst o.
      destruct (FIELDS !! x) eqn:HF.
      * split; [done|]. intros [_ Hn]. exfalso. apply Hn. right. eauto.
      * split.
        -- intros [= <-]. split; [done|]. intros [[l [[= <-] ?]]|[? ?]]; done.
        -- by intros [-> _].
  - destruct (FIELDS !! x) eqn:HF.
    + split; [done|]. intros [_ Hn]. exfalso. apply Hn. right. eauto.
    + split.
      * intros [= <-]. split; [done|]. intros [[l [? ?]]|[? ?]]; done.
      * by intros [-> _].
Qed.

Lemma resolves_dec d x : resolves d x ∨ ¬ resolves d x.
Proof.
  destruct (label_for d x) as [l|e] eqn:H.
  - left. apply label_for_Returned in H. unfold resolves.
    destruct H as [[? ?]|[_ ?]]; eauto.
  - right. apply label_for_Raised in H. tauto.
Qed.

Lemma comprehension_Returned d xs ls :
  comprehension (label_for d) xs = Returned ls ↔ Forall2 (is_label d) xs ls.
Proof.
  revert ls. induction xs as [|x xs IH]; intros ls; simpl.
  - split.
    + intros [= <-]. constructor.
    + intros H. by inversion H.
  - destruct (label_for d x) as [l|e] eqn:Hx.
    + destruct (comprehension (label_for d) xs) as [ys|e] eqn:Hxs.
      * split.
        -- intros [= <-]. constructor; [by apply label_for_Returned | by apply IH].
        -- intros H. inversion H as [|? l' ? ls' Hl Hls]; subst.
           apply label_for_Returned in Hl. apply IH in Hls. congruence.
      * split; [done|].
        intros H. inversion H as [|? l' ? ls' Hl Hls]; subst.
        apply IH in Hls. done.
    + split; [done|].
      intros H. inversion H as [|? l' ? ls' Hl Hls]; subst.
      apply label_for_Returned in Hl. congruence.
Qed.

Lemma comprehension_Raised d xs e :
  comprehension (label_for d) xs = Raised e ↔
  ∃ pre k post, xs = pre ++ k :: post ∧ e = KeyError k ∧
                Forall (resolves d) pre ∧ ¬ resolves d k.
Proof.
  revert e. induction xs as [|x xs IH]; intros e; simpl.
  - split; [done|]. intros (pre & k & post & H & _). by destruct pre.
  - destruct (label_for d x) as [l|e'] eqn:Hx.
    + assert (resolves d x) as Hr.
      { apply label_for_Returned in Hx. unfold resolves.
        destruct Hx as [[? ?]|[_ ?]]; eauto. }
      assert (comprehension (label_for d) xs = Raised e ↔
              ∃ pre k post, x :: xs = pre ++ k :: post ∧ e = KeyError k ∧
                            Forall (resolves d) pre ∧ ¬ resolves d k) as Hstep.
      { rewrite IH. split.
        - intros (pre & k & post & -> & -> & Hpre & Hk).
          exists (x :: pre), k, post. split_and!; try done. by constructor.
        - intros (pre & k & post & H & -> & Hpre & Hk).
          destruct pre as [|p pre]; simpl in H; injection H as <- ->; [done|].
          apply Forall_cons in Hpre as [_ Hpre]. eauto 10. }
      destruct (comprehension (label_for d) xs) as [ys|e'] eqn:Hxs.
      * rewrite <- Hstep. done.
      * rewrite <- Hstep. done.
    + apply label_for_Raised in Hx as [-> Hx]. split.
      * intros [= <-]. exists [], x, xs. split_and!; try done.
      * intros (pre & k & post & H & -> & Hpre & Hk).
        destruct pre as [|p pre]; simpl in H; injection H as <- ->; [done|].
        apply Forall_cons in Hpre as [? _]. done.
Qed.

(** The comprehension over a list of identifiers raises exactly when one of
    them has no label. *)
Lemma comprehension_total d xs :
  Forall (resolves d) xs → ∃ ls, comprehension (label_for d) xs = Returned ls.
Proof.
  intros Hall. destruct (comprehension (label_for d) xs) as [ls|e] eqn:H; [eauto|].
  apply comprehension_Raised in H as (pre & k & post & -> & _ & _ & Hk).
  exfalso. apply Hk. rewrite Forall_app, Forall_cons in Hall. tauto.
Qed.

Lemma Forall2_is_label_resolves d xs ls :
  Forall2 (is_label d) xs ls → Forall (resolves d) xs.
Proof.
  induction 1 as [|x l xs ls Hl _ IH]; constructor; [|done].
  unfold resolves. destruct Hl as [[? ?]|[_ ?]]; eauto.
Qed.

(** [__init__] on a fresh instance, step by step. *)
Lemma init_run field_ids sort_excluded override_labels :
  __init__ field_ids sort_excluded override_labels new_instance =
    if decide (unknown_ids (override_keys override_labels) field_ids = ∅) then
      match comprehension (label_for (overrides override_labels)) field_ids with
      | Raised e => (Instance (Some field_ids) None None None, Raised e)
      | Returned ls =>
          if decide (unknown_ids (excluded sort_excluded) field_ids = ∅) then
            let sf := filter (λ x, x ∉ excluded sort_excluded) field_ids in
            match comprehension (label_for (overrides override_labels)) sf with
            | Raised e => (Instance (Some field_ids) (Some ls) (Some sf) None, Raised e)
            | Returned sls =>
                (Instance (Some field_ids) (Some ls) (Some sf) (Some sls), Returned tt)
            end
          else (Instance (Some field_ids) (Some ls) None None,
                Raised (ValueError "sort_excluded"
                          (unknown_ids (excluded sort_excluded) field_ids)))
      end
    else (new_instance,
          Raised (ValueError "override_labels"
                    (unknown_ids (override_keys override_labels) field_ids))).
Proof.
  assert (unknown_ids [] field_ids = ∅) as Hnil.
  { apply unknown_ids_empty. intros [x [Hx _]]. by apply elem_of_nil in Hx. }
  unfold __init__, bind, lift, ret, set_fields, set_labels, set_sort_fields,
    set_sort_labels, new_instance.
  destruct override_labels as [d|]; simpl.
  - rewrite check_param_fields_run. case_decide; [|done]. simpl.
    destruct (comprehension (label_for d) field_ids) as [ls|e]; [|done].
    destruct sort_excluded as [l|]; simpl.
    + rewrite check_param_fields_run. case_decide; [|done]. simpl.
      by destruct (comprehension _ _).
    + rewrite decide_True by done. by destruct (comprehension _ _).
  - rewrite decide_True by done.
    destruct (comprehension (label_for ∅) field_ids) as [ls|e]; [|done].
    destruct sort_excluded as [l|]; simpl.
    + rewrite check_param_fields_run. case_decide; [|done]. simpl.
      by destruct (comprehension _ _).
    + rewrite decide_True by done. by destruct (comprehension _ _).
Qed.

Lemma init_ending field_ids sort_excluded override_labels :
  ending field_ids sort_excluded override_labels
    (__init__ field_ids sort_excluded override_labels new_instance).1
    (__init__ field_ids sort_excluded override_labels new_instance).2.
Proof.
  rewrite init_run.
  case_decide as Ho; [apply unknown_ids_empty in Ho|].
  - destruct (comprehension _ field_ids) as [ls|e] eqn:Hls.
    + apply comprehension_Returned in Hls.
      case_decide as Hs; [apply unknown_ids_empty in Hs|].
      * simpl.
        destruct (comprehension_total (overrides override_labels)
                    (filter (λ x, x ∉ excluded sort_excluded) field_ids))
          as [sls Hsls].
        { apply Forall_forall. intros x [_ Hx]%list_elem_of_filter.
          eapply Forall_forall; [by eapply Forall2_is_label_resolves|done]. }
        rewrite Hsls. apply comprehension_Returned in Hsls. simpl.
        by constructor.
      * simpl. constructor; try done.
        destruct (decide (Exists (λ x, x ∉ field_ids) (excluded sort_excluded)))
          as [He|He].
        -- apply Exists_exists in He. done.
        -- exfalso. apply Hs. apply unknown_ids_empty.
           intros [x [? ?]]. apply He, Exists_exists. eauto.
    + apply comprehension_Raised in Hls as (pre & k & post & -> & -> & ? & ?).
      simpl. by econstructor.
  - simpl. constructor.
    destruct (decide (Exists (λ x, x ∉ field_ids) (override_keys override_labels)))
      as [He|He].
    + apply Exists_exists in He. done.
    + exfalso. apply Ho. apply unknown_ids_empty.
      intros [x [? ?]]. apply He, Exists_exists. eauto.
Qed.

Lemma Resource_init field_ids sort_excluded override_labels :
  Resource field_ids sort_excluded override_labels =
    match (__init__ field_ids sort_excluded override_labels new_instance).2 with
    | Returned _ => Returned (__init__ field_ids sort_excluded override_labels new_instance).1
    | Raised e => Raised e
    end.
Proof.
  unfold Resource.
  by destruct (__init__ _ _ _ _) as [self [[]|e]].
Qed.

Lemma Resource_Returned field_ids sort_excluded override_labels r :
  Resource field_ids sort_excluded override_labels = Returned r →
  ∃ ls sls,
    r = Instance (Some field_ids) (Some ls)
          (Some (filter (λ x, x ∉ excluded sort_excluded) field_ids)) (Some sls) ∧
    ¬ has_unknown (override_keys override_labels) field_ids ∧
    ¬ has_unknown (excluded sort_excluded) field_ids ∧
    Forall2 (is_label (overrides override_labels)) field_ids ls ∧
    Forall2 (is_label (overrides override_labels))
      (filter (λ x, x ∉ excluded sort_excluded) field_ids) sls.
Proof.
  rewrite Resource_init.
  destruct (init_ending field_ids sort_excluded override_labels); try done.
  intros [= <-]. eauto 10.
Qed.

Lemma Resource_Raised field_ids sort_excluded override_labels e :
  Resource field_ids sort_excluded override_labels = Raised e →
  (has_unknown (override_keys override_labels) field_ids ∧
   e = ValueError "override_labels"
         (unknown_ids (override_keys override_labels) field_ids)) ∨
  (¬ has_unknown (override_keys override_labels) field_ids ∧
   ∃ pre k post, field_ids = pre ++ k :: post ∧
     Forall (resolves (overrides override_labels)) pre ∧
     ¬ resolves (overrides override_labels) k ∧ e = KeyError k) ∨
  (¬ has_unknown (override_keys override_labels) field_ids ∧
   Forall (resolves (overrides override_labels)) field_ids ∧
   has_unknown (excluded sort_excluded) field_ids ∧
   e = ValueError "sort_excluded"
         (unknown_ids (excluded sort_excluded) field_ids)).
Proof.
  rewrite Resource_init.
  destruct (init_ending field_ids sort_excluded override_labels); try done.
  - intros [= <-]. by left.
  - intros [= <-]. right. left. eauto 10.
  - intros [= <-]. right. right. split_and!; try done.
    by eapply Forall2_is_label_resolves.
Qed.

Lemma is_label_functional d x l1 l2 : is_label d x l1 → is_label d x l2 → l1 = l2.
Proof.
  intros H1 H2. apply label_for_Returned in H1, H2. congruence.
Qed.

Lemma not_resolves_iff d x :
  ¬ resolves d x ↔ FIELDS !! x = None ∧ ¬ (∃ l, d !! x = Some l ∧ l ≠ "").
Proof.
  unfold resolves. split.
  - intros Hn. split.
    + destruct (FIELDS !! x) eqn:HF; [|done]. exfalso. apply Hn. right. eauto.
    + intros H. apply Hn. by left.
  - intros [HF Hn] [H|[l Hl]]; [done|congruence].
Qed.

(** ** Properties of [Resource] *)

(** C5. Every constructed Resource has [fields] equal to [field_ids] in the
    given order and [sort_fields] equal to [field_ids] with the members of
    [sort_excluded] filtered out, in the original order. *)
Theorem fields_preserved_sort_fields_filtered field_ids sort_excluded override_labels r :
  Resource field_ids sort_excluded override_labels = Returned r →
  fields r = Some field_ids ∧
  sort_fields r = Some (filter (λ x, x ∉ excluded sort_excluded) field_ids).
Proof.
  intros (ls & sls & -> & _)%Resource_Returned. done.
Qed.

Lemma fields_preserved_sort_fields_filtered_witness :
  fields (Instance (Some ["uuid"; "name"]) (Some ["UUID"; "Name"])
            (Some ["uuid"]) (Some ["UUID"])) = Some ["uuid"; "name"] ∧
  sort_fields (Instance (Some ["uuid"; "name"]) (Some ["UUID"; "Name"])
                 (Some ["uuid"]) (Some ["UUID"])) = Some ["uuid"].
Proof.
  apply (fields_preserved_sort_fields_filtered
           ["uuid"; "name"] (Some ["name"]) None).
  vm_compute. reflexivity.
Defined.

(** C10. Every constructed Resource has as many labels as fields and as many
    sort labels as sort fields, its sort fields are a subsequence of its
    fields, and duplicates in [field_ids] are kept, with equal labels. *)
Theorem lengths_agree_sort_fields_sublist field_ids sort_excluded override_labels r :
  Resource field_ids sort_excluded override_labels = Returned r →
  ∃ fs ls sfs sls,
    fields r = Some fs ∧ labels r = Some ls ∧
    sort_fields r = Some sfs ∧ sort_labels r = Some sls ∧
    length ls = length fs ∧ length sls = length sfs ∧
    sublist sfs fs ∧
    fs = field_ids ∧
    (∀ i j x, field_ids !! i = Some x → field_ids !! j = Some x → ls !! i = ls !! j).
Proof.
  intros (ls & sls & -> & _ & _ & Hls & Hsls)%Resource_Returned.
  eexists _, _, _, _. split_and!; try done.
  - symmetry. by eapply Forall2_length.
  - symmetry. by eapply Forall2_length.
  - apply sublist_filter.
  - intros i j x Hi Hj.
    destruct (Forall2_lookup_l _ _ _ _ _ Hls Hi) as (li & Hli & Hl1).
    destruct (Forall2_lookup_l _ _ _ _ _ Hls Hj) as (lj & Hlj & Hl2).
    rewrite Hli, Hlj. f_equal. by eapply is_label_functional.
Qed.

Lemma lengths_agree_sort_fields_sublist_witness :
  ∃ fs ls sfs sls,
    fields (Instance (Some ["uuid"; "extra"; "uuid"]) (Some ["UUID"; "Extra"; "UUID"])
              (Some ["uuid"; "uuid"]) (Some ["UUID"; "UUID"])) = Some fs ∧
    labels (Instance (Some ["uuid"; "extra"; "uuid"]) (Some ["UUID"; "Extra"; "UUID"])
              (Some ["uuid"; "uuid"]) (Some ["UUID"; "UUID"])) = Some ls ∧
    sort_fields (Instance (Some ["uuid"; "extra"; "uuid"]) (Some ["UUID"; "Extra"; "UUID"])
              (Some ["uuid"; "uuid"]) (Some ["UUID"; "UUID"])) = Some sfs ∧
    sort_labels (Instance (Some ["uuid"; "extra"; "uuid"]) (Some ["UUID"; "Extra"; "UUID"])
              (Some ["uuid"; "uuid"]) (Some ["UUID"; "UUID"])) = Some sls ∧
    length ls = length fs ∧ length sls = length sfs ∧
    sublist sfs fs ∧
    fs = ["uuid"; "extra"; "uuid"] ∧
    (∀ i j x, ["uuid"; "extra"; "uuid"] !! i = Some x →
              ["uuid"; "extra"; "uuid"] !! j = Some x → ls !! i = ls !! j).
Proof.
  apply (lengths_agree_sort_fields_sublist
           ["uuid"; "extra"; "uuid"] (Some ["extra"]) None).
  vm_compute. reflexivity.
Defined.

(** An identifier without a label comes before the check of [sort_excluded]:
    the call ends in KeyError although [sort_excluded] holds an identifier
    that is not in [field_ids]. *)
Lemma unknown_sort_excluded_behind_KeyError :
  ¬ (∀ field_ids sort_excluded override_labels,
       (∃ param_name not_existing,
          Resource field_ids sort_excluded override_labels
            = Raised (ValueError param_name not_existing)) ↔
       (has_unknown (excluded sort_excluded) field_ids ∨
        has_unknown (override_keys override_labels) field_ids)).
Proof.
  intros H.
  destruct (proj2 (H ["zzz"] (Some ["bogus"]) None)) as (param_name & not_existing & Hmsg).
  - left. exists "bogus". split; [by apply list_elem_of_singleton|].
    by intros ?%list_elem_of_singleton.
  - vm_compute in Hmsg. discriminate Hmsg.
Qed.

(** The texts of a ValueError list the unknown identifiers of the parameter
    at fault, each once, in some order. *)
Lemma ValueError_text_listing param_name param_fields field_ids msg :
  has_unknown param_fields field_ids →
  ValueError_text param_name (unknown_ids param_fields field_ids) msg →
  ∃ listed,
    NoDup listed ∧ listed ≠ [] ∧
    (∀ x, x ∈ listed ↔ x ∈ param_fields ∧ x ∉ field_ids) ∧
    msg = param_name
            +:+ " specified with value not contained in field_ids.  Unknown value(s): "
            +:+ join ", " listed.
Proof.
  intros (y & Hy & Hny) (listed & [Hnd Hmem] & ->).
  exists listed. split_and!; try done.
  - intros ->. apply (not_elem_of_nil y), Hmem.
    unfold unknown_ids. rewrite elem_of_difference, !elem_of_list_to_set. done.
  - intros x. rewrite Hmem. unfold unknown_ids.
    by rewrite elem_of_difference, !elem_of_list_to_set.
Qed.

Lemma ValueError_text_exists param_name not_existing :
  ∃ msg, ValueError_text param_name not_existing msg.
Proof.
  exists (unknown_message param_name (elements not_existing)), (elements not_existing).
  split; [|done]. split; [apply NoDup_elements|].
  intros x. apply elem_of_elements.
Qed.

(** C4 (amended). The call raises ValueError exactly when [override_labels]
    has a key that is not in [field_ids], or, with valid [override_labels] and
    a label for every identifier of [field_ids], when [sort_excluded] has a
    member that is not in [field_ids]. The error is about that parameter and
    the identifiers of it that are not in [field_ids]; its text names the
    parameter and lists these identifiers, each once, in the order in which
    the set happens to be iterated. No instance is returned: on a failure of
    [override_labels] nothing has been assigned, on a failure of
    [sort_excluded] the two sort views are still unassigned. *)
Theorem ValueError_iff_unknown field_ids sort_excluded override_labels :
  (∀ param_name not_existing,
     Resource field_ids sort_excluded override_labels
       = Raised (ValueError param_name not_existing) ↔
     (has_unknown (override_keys override_labels) field_ids ∧
      param_name = "override_labels" ∧
      not_existing = unknown_ids (override_keys override_labels) field_ids) ∨
     (¬ has_unknown (override_keys override_labels) field_ids ∧
      Forall (resolves (overrides override_labels)) field_ids ∧
      has_unknown (excluded sort_excluded) field_ids ∧
      param_name = "sort_excluded" ∧
      not_existing = unknown_ids (excluded sort_excluded) field_ids)) ∧
  (∀ param_name not_existing,
     Resource field_ids sort_excluded override_labels
       = Raised (ValueError param_name not_existing) →
     (∃ msg, ValueError_text param_name not_existing msg) ∧
     ∀ msg, ValueError_text param_name not_existing msg →
       ∃ param_fields listed,
         ((param_name = "override_labels" ∧ param_fields = override_keys override_labels) ∨
          (param_name = "sort_excluded" ∧ param_fields = excluded sort_excluded)) ∧
         NoDup listed ∧ listed ≠ [] ∧
         (∀ x, x ∈ listed ↔ x ∈ param_fields ∧ x ∉ field_ids) ∧
         msg = param_name
                 +:+ " specified with value not contained in field_ids.  Unknown value(s): "
                 +:+ join ", " listed) ∧
  (∀ self param_name not_existing,
     __init__ field_ids sort_excluded override_labels new_instance
       = (self, Raised (ValueError param_name not_existing)) →
     sort_fields self = None ∧ sort_labels self = None ∧
     (has_unknown (override_keys override_labels) field_ids → self = new_instance)).
Proof.
  split_and!.
  - intros param_name not_existing. split.
    + intros [(? & [= -> ->])|[(? & ? & ? & ? & ? & ? & ? & [=])|(? & ? & ? & [= -> ->])]]%Resource_Raised.
      * by left.
      * right. done.
    + rewrite Resource_init.
      destruct (init_ending field_ids sort_excluded override_labels) as
        [Ho|pre k post Ho -> Hpre Hk|ls Ho Hls Hs|ls sls Ho Hls Hs Hsls].
      * intros [(_ & -> & ->)|[? _]]; done.
      * intros [[? _]|(_ & Hall & _)]; [done|].
        exfalso. apply Hk. rewrite Forall_app, Forall_cons in Hall. tauto.
      * intros [[? _]|(_ & _ & _ & -> & ->)]; done.
      * intros [[? _]|(_ & _ & ? & _)]; done.
  - intros param_name not_existing Hr. split; [apply ValueError_text_exists|].
    intros msg Hmsg.
    apply Resource_Raised in Hr
      as [(Hu & [= -> ->])|[(? & ? & ? & ? & ? & ? & ? & [=])|(_ & _ & Hu & [= -> ->])]].
    + destruct (ValueError_text_listing _ _ _ _ Hu Hmsg) as (listed & ? & ? & ? & ?).
      exists (override_keys override_labels), listed. split_and!; eauto.
    + destruct (ValueError_text_listing _ _ _ _ Hu Hmsg) as (listed & ? & ? & ? & ?).
      exists (excluded sort_excluded), listed. split_and!; eauto.
  - intros self param_name not_existing Hrun.
    pose proof (init_ending field_ids sort_excluded override_labels) as He.
    rewrite Hrun in He. simpl in He. inversion He; subst; done.
Qed.

Lemma ValueError_iff_unknown_witness :
  Resource ["uuid"; "name"] (Some ["bogus"]) None =
    Raised (ValueError "sort_excluded" (unknown_ids ["bogus"] ["uuid"; "name"])).
Proof.
  apply (proj2 (proj1 (ValueError_iff_unknown ["uuid"; "name"] (Some ["bogus"]) None) _ _)).
  right. split_and!.
  - intros [x [Hx _]]. by apply elem_of_nil in Hx.
  - repeat (apply Forall_cons_2; [right; vm_compute; eauto|]). apply Forall_nil_2.
  - exists "bogus". split; [by apply list_elem_of_singleton|].
    intros [?|[?|?%elem_of_nil]%elem_of_cons]%elem_of_cons; done.
  - reflexivity.
  - reflexivity.
Defined.

(** The one text of the error for [sort_excluded=['bogus']]: a set of one
    identifier has one iteration order. *)
Example bogus_is_named msg :
  ValueError_text "sort_excluded" (unknown_ids ["bogus"] ["uuid"; "name"]) msg ↔
  msg = "sort_excluded specified with value not contained in field_ids.  Unknown value(s): bogus".
Proof.
  assert (∀ x, x ∈ unknown_ids ["bogus"] ["uuid"; "name"] ↔ x = "bogus") as Hset.
  { intros x. unfold unknown_ids.
    rewrite elem_of_difference, !elem_of_list_to_set, !elem_of_cons, !elem_of_nil.
    split; [by intros [[?|[]] _]|].
    intros ->. split; [by left|]. intros [?|[?|?]]; done. }
  split.
  - intros (listed & [Hnd Hmem] & ->).
    assert (listed = ["bogus"]) as ->; [|done].
    destruct listed as [|a [|b rest]].
    + exfalso. apply (not_elem_of_nil "bogus"), Hmem, Hset. done.
    + f_equal. apply Hset, Hmem, list_elem_of_here.
    + exfalso. apply NoDup_cons in Hnd as [Hab _]. apply Hab.
      assert (a = "bogus") as -> by apply Hset, Hmem, list_elem_of_here.
      assert (b = "bogus") as ->
        by apply Hset, Hmem, list_elem_of_further, list_elem_of_here.
      apply list_elem_of_here.
  - intros ->. exists ["bogus"]. split; [|done]. split.
    + apply NoDup_singleton.
    + intros x. rewrite Hset. apply list_elem_of_singleton.
Qed.

(** With an empty override the label is the one of [FIELDS], not the
    override. *)
Lemma empty_override_not_used :
  ¬ (∀ field_ids sort_excluded override_labels r ls,
       Resource field_ids sort_excluded override_labels = Returned r →
       labels r = Some ls →
       Forall2 (given_label (overrides override_labels)) field_ids ls).
Proof.
  intros H.
  assert (Forall2 (given_label (overrides (Some {["name" := ""]}))) ["name"] ["Name"])
    as HF.
  { eapply (H ["name"] None (Some {["name" := ""]})).
    - vm_compute. reflexivity.
    - reflexivity. }
  inversion HF as [|? ? ? ? Hg _]; subst.
  destruct Hg as [Hl|[Hl _]]; vm_compute in Hl; discriminate Hl.
Qed.

(** C7 (amended). In every constructed Resource [labels] is parallel to
    [fields] and [sort_labels] is parallel to [sort_fields]; each label is the
    override of its identifier when that override is not empty, else the label
    of the identifier in [FIELDS]. *)
Theorem labels_parallel_override_else_default field_ids sort_excluded override_labels r :
  Resource field_ids sort_excluded override_labels = Returned r →
  ∃ fs ls sfs sls,
    fields r = Some fs ∧ labels r = Some ls ∧
    sort_fields r = Some sfs ∧ sort_labels r = Some sls ∧
    Forall2 (is_label (overrides override_labels)) fs ls ∧
    Forall2 (is_label (overrides override_labels)) sfs sls ∧
    (∀ x, x ∈ sfs ↔ x ∈ fs ∧ x ∉ excluded sort_excluded).
Proof.
  intros (ls & sls & -> & _ & _ & Hls & Hsls)%Resource_Returned.
  eexists _, _, _, _. split_and!; try done.
  intros x. rewrite list_elem_of_filter. tauto.
Qed.

Lemma labels_parallel_override_else_default_witness :
  ∃ fs ls sfs sls,
    fields (Instance (Some ["name"; "hosts"]) (Some ["Supported driver(s)"; "Active host(s)"])
              (Some ["name"]) (Some ["Supported driver(s)"])) = Some fs ∧
    labels (Instance (Some ["name"; "hosts"]) (Some ["Supported driver(s)"; "Active host(s)"])
              (Some ["name"]) (Some ["Supported driver(s)"])) = Some ls ∧
    sort_fields (Instance (Some ["name"; "hosts"]) (Some ["Supported driver(s)"; "Active host(s)"])
              (Some ["name"]) (Some ["Supported driver(s)"])) = Some sfs ∧
    sort_labels (Instance (Some ["name"; "hosts"]) (Some ["Supported driver(s)"; "Active host(s)"])
              (Some ["name"]) (Some ["Supported driver(s)"])) = Some sls ∧
    Forall2 (is_label (overrides (Some {["name" := "Supported driver(s)"]}))) fs ls ∧
    Forall2 (is_label (overrides (Some {["name" := "Supported driver(s)"]}))) sfs sls ∧
    (∀ x, x ∈ sfs ↔ x ∈ fs ∧ x ∉ excluded (Some ["hosts"])).
Proof.
  apply (labels_parallel_override_else_default
           ["name"; "hosts"] (Some ["hosts"]) (Some {["name" := "Supported driver(s)"]})).
  vm_compute. reflexivity.
Defined.

(** The check of [override_labels] comes before the labels are looked up: an
    identifier without a label does not end the call in KeyError when
    [override_labels] has an unknown key. *)
Lemma KeyError_behind_unknown_override :
  ¬ (∀ field_ids sort_excluded override_labels x,
       x ∈ field_ids → FIELDS !! x = None →
       ¬ (∃ l, overrides override_labels !! x = Some l ∧ l ≠ "") →
       ∃ k, Resource field_ids sort_excluded override_labels = Raised (KeyError k)).
Proof.
  intros H.
  destruct (H ["zzz"] None (Some {["bogus" := "B"]}) "zzz") as [k Hk].
  - by apply list_elem_of_singleton.
  - vm_compute. reflexivity.
  - intros [l [Hl _]]. vm_compute in Hl. discriminate Hl.
  - vm_compute in Hk. discriminate Hk.
Qed.

(** C9 (amended). When [override_labels] passes its check, the call ends in
    KeyError exactly when some identifier of [field_ids] is missing from
    [FIELDS] and has no non-empty override; the key of the error is such an
    identifier. When every identifier has a non-empty override or an entry of
    [FIELDS] and [sort_excluded] is valid, the call returns, and a non-empty
    override is the label of its identifier. An empty override counts as
    none: the label is the entry of [FIELDS]. *)
Theorem KeyError_iff_no_label field_ids sort_excluded override_labels :
  ¬ has_unknown (override_keys override_labels) field_ids →
  ((∃ k, Resource field_ids sort_excluded override_labels = Raised (KeyError k)) ↔
   (∃ x, x ∈ field_ids ∧ FIELDS !! x = None ∧
         ¬ (∃ l, overrides override_labels !! x = Some l ∧ l ≠ ""))) ∧
  (∀ k, Resource field_ids sort_excluded override_labels = Raised (KeyError k) →
        k ∈ field_ids ∧ FIELDS !! k = None ∧
        ¬ (∃ l, overrides override_labels !! k = Some l ∧ l ≠ "")) ∧
  ((∀ x, x ∈ field_ids → FIELDS !! x = None →
         ∃ l, overrides override_labels !! x = Some l ∧ l ≠ "") →
   ¬ has_unknown (excluded sort_excluded) field_ids →
   ∃ r, Resource field_ids sort_excluded override_labels = Returned r) ∧
  (∀ r ls i x,
     Resource field_ids sort_excluded override_labels = Returned r →
     labels r = Some ls → field_ids !! i = Some x →
     (∀ l, overrides override_labels !! x = Some l → l ≠ "" → ls !! i = Some l) ∧
     (overrides override_labels !! x = Some "" →
      is_Some (FIELDS !! x) ∧ ls !! i = FIELDS !! x)).
Proof.
  intros Hok.
  assert (∀ k, Resource field_ids sort_excluded override_labels = Raised (KeyError k) →
               k ∈ field_ids ∧ FIELDS !! k = None ∧
               ¬ (∃ l, overrides override_labels !! k = Some l ∧ l ≠ "")) as Hkey.
  { intros k [(? & [=])|[(_ & pre & k' & post & -> & _ & Hk & [= ->])|(_ & _ & _ & [=])]]%Resource_Raised.
    apply not_resolves_iff in Hk. split; [|done].
    apply elem_of_app. right. by apply list_elem_of_here. }
  split_and!.
  - split.
    + intros [k Hk]. exists k. by apply Hkey.
    + intros (x & Hx & HF & Hno).
      rewrite Resource_init.
      destruct (init_ending field_ids sort_excluded override_labels) as
        [Ho|pre k post Ho -> Hpre Hk|ls Ho Hls Hs|ls sls Ho Hls Hs Hsls];
        [done|by eauto| |].
      * exfalso. apply Forall2_is_label_resolves in Hls.
        rewrite Forall_forall in Hls. specialize (Hls x Hx).
        revert Hls. by apply not_resolves_iff.
      * exfalso. apply Forall2_is_label_resolves in Hls.
        rewrite Forall_forall in Hls. specialize (Hls x Hx).
        revert Hls. by apply not_resolves_iff.
  - done.
  - intros Hall Hs.
    rewrite Resource_init.
    destruct (init_ending field_ids sort_excluded override_labels) as
      [Ho|pre k post Ho -> Hpre Hk|ls Ho Hls Hs'|ls sls Ho Hls Hs' Hsls];
      [done| |done|by eauto].
    exfalso. apply not_resolves_iff in Hk as [HF Hno]. apply Hno, Hall; [|done].
    apply elem_of_app. right. by apply list_elem_of_here.
  - intros r ls i x (ls' & sls & -> & _ & _ & Hls & _)%Resource_Returned [= <-] Hi.
    destruct (Forall2_lookup_l _ _ _ _ _ Hls Hi) as (l' & Hl' & Hrule).
    split.
    + intros l Hl Hne. rewrite Hl'. f_equal.
      eapply is_label_functional; [done|]. by left.
    + intros He. destruct Hrule as [[Hl Hne]|[_ HF]]; [congruence|].
      rewrite HF, Hl'. eauto.
Qed.

Lemma KeyError_iff_no_label_witness :
  ∃ k, Resource ["zzz"; "uuid"] None (Some {["uuid" := ""]}) = Raised (KeyError k).
Proof.
  assert (¬ has_unknown (override_keys (Some {["uuid" := ""]})) ["zzz"; "uuid"]) as Hok.
  { intros [x [Hx Hn]]. apply Hn.
    apply elem_of_keys in Hx as [v Hv].
    apply lookup_singleton_Some in Hv as [<- _].
    apply list_elem_of_further, list_elem_of_here. }
  apply (proj1 (KeyError_iff_no_label ["zzz"; "uuid"] None (Some {["uuid" := ""]}) Hok)).
  exists "zzz". split_and!.
  - apply list_elem_of_here.
  - vm_compute. reflexivity.
  - intros [l [Hl _]]. vm_compute in Hl. discriminate Hl.
Defined.

Example KeyError_names_the_field :
  Resource ["zzz"; "uuid"] None (Some {["uuid" := ""]}) = Raised (KeyError "zzz").
Proof. vm_compute. reflexivity. Qed.

Example truthy_override_of_unknown_field :
  Resource ["zzz"; "uuid"] None (Some {["zzz" := "Z"; "uuid" := ""]}) =
    Returned (Instance (Some ["zzz"; "uuid"]) (Some ["Z"; "UUID"])
                (Some ["zzz"; "uuid"]) (Some ["Z"; "UUID"])).
Proof. vm_compute. reflexivity. Qed.

End ResourceFieldsProofs.

Module HTTPProofs.
Import HTTP.

(** ** The URL tests of [test_http.py] *)

Example url_trailing_slash_in_base :
  _make_connection_url simple_path "http://localhost/" "/v1/resources" = "/v1/resources".
Proof. reflexivity. Qed.

Example url_without_trailing_slash_in_base :
  _make_connection_url simple_path "http://localhost" "/v1/resources" = "/v1/resources".
Proof. reflexivity. Qed.

Example url_without_prefix_slash_in_path :
  _make_connection_url simple_path "http://localhost" "v1/resources" = "/v1/resources".
Proof. reflexivity. Qed.

Example url_many_slashes :
  _make_connection_url simple_path "http://localhost/api///" "//v1/resources"
    = "/api/v1/resources".
Proof. reflexivity. Qed.

(** ** Stripping slashes *)

Lemma string_app_nil_l (s : string) : "" +:+ s = s.
Proof. reflexivity. Qed.

Lemma string_app_cons (c : ascii) (s t : string) : String c s +:+ t = String c (s +:+ t).
Proof. reflexivity. Qed.

Ltac str_simpl := simpl; rewrite ?string_app_cons, ?string_app_nil_l.
Ltac str_simpl_in H := simpl in H; rewrite ?string_app_cons, ?string_app_nil_l in H.

Lemma string_app_empty_r (s : string) : s +:+ "" = s.
Proof. induction s as [|c s IH]; str_simpl; [done|by rewrite IH]. Qed.

Lemma string_app_assoc (s t u : string) : (s +:+ t) +:+ u = s +:+ t +:+ u.
Proof. induction s as [|c s IH]; str_simpl; [done|by rewrite IH]. Qed.

Lemma slashes_snoc n : slashes (S n) = slashes n +:+ "/".
Proof.
  induction n as [|n IH]; [done|].
  simpl in *. rewrite string_app_cons. by f_equal.
Qed.

Lemma lstrip_slash_other c s : c ≠ "/"%char → lstrip_slash (String c s) = String c s.
Proof. intros Hc. destruct c as [[] [] [] [] [] [] [] []]; done. Qed.

Lemma lstrip_slash_slashes n s : lstrip_slash (slashes n +:+ s) = lstrip_slash s.
Proof. induction n as [|n IH]; str_simpl; done. Qed.

Lemma lstrip_slash_no_leading s : ¬ starts_with_slash (lstrip_slash s).
Proof.
  induction s as [|c s IH].
  - intros [rest H]. discriminate H.
  - destruct (decide (c = "/"%char)) as [->|Hc]; [done|].
    rewrite lstrip_slash_other by done. intros [rest [= ? _]]. done.
Qed.

Lemma lstrip_slash_split s : ∃ n, s = slashes n +:+ lstrip_slash s.
Proof.
  induction s as [|c s [n IH]].
  - by exists 0.
  - destruct (decide (c = "/"%char)) as [->|Hc].
    + exists (S n). str_simpl. by f_equal.
    + exists 0. by rewrite lstrip_slash_other.
Qed.

Lemma lstrip_slash_id s : ¬ starts_with_slash s → lstrip_slash s = s.
Proof.
  destruct s as [|c s]; [done|]. intros Hn.
  destruct (decide (c = "/"%char)) as [->|Hc].
  - exfalso. apply Hn. by exists s.
  - by apply lstrip_slash_other.
Qed.

Lemma rstrip_slash_slashes n : rstrip_slash (slashes n) = "".
Proof. induction n as [|n IH]; simpl; [done|]. by rewrite IH. Qed.

Lemma rstrip_slash_app_slashes s n : rstrip_slash (s +:+ slashes n) = rstrip_slash s.
Proof.
  induction s as [|c s IH]; str_simpl.
  - apply rstrip_slash_slashes.
  - by rewrite IH.
Qed.

Lemma rstrip_slash_split s : ∃ n, s = rstrip_slash s +:+ slashes n.
Proof.
  induction s as [|c s [n IH]].
  - by exists 0.
  - simpl. destruct (rstrip_slash s) as [|k kept] eqn:Hk.
    + destruct (Ascii.eqb_spec c "/"%char) as [->|Hc].
      * exists (S n). str_simpl. str_simpl_in IH. by f_equal.
      * exists n. str_simpl. str_simpl_in IH. by f_equal.
    + exists n. str_simpl. str_simpl_in IH. by f_equal.
Qed.

Lemma rstrip_slash_no_trailing s : ¬ ends_with_slash (rstrip_slash s).
Proof.
  induction s as [|c s IH]; simpl.
  - intros [[|? [|? ?]] H]; discriminate H.
  - destruct (rstrip_slash s) as [|k kept] eqn:Hk.
    + destruct (Ascii.eqb_spec c "/"%char) as [->|Hc].
      * intros [[|? [|? ?]] H]; discriminate H.
      * intros [[|? [|? ?]] H]; str_simpl_in H; simplify_eq.
    + intros [[|c' stem] H]; str_simpl_in H; [discriminate H|].
      injection H as <- H. apply IH. by exists stem.
Qed.

Lemma rstrip_slash_id s : ¬ ends_with_slash s → rstrip_slash s = s.
Proof.
  intros Hn. destruct (rstrip_slash_split s) as [[|n] Hs].
  - rewrite string_app_empty_r in Hs. done.
  - exfalso. apply Hn. exists (rstrip_slash s +:+ slashes n).
    rewrite string_app_assoc, <- slashes_snoc. done.
Qed.

(** ** Properties of the URL normalizer *)

(** C2. Whatever the number of slashes that end the path component of the
    base and the number of slashes that begin the relative path, the result
    is the path component without them, one slash, and the relative path
    without them; it depends on the base through its path component only. *)
Theorem exactly_one_joining_slash (urlparse_path : string → string) (endpoint url : string) :
  (∃ stem rest n m,
     urlparse_path endpoint = stem +:+ slashes n ∧ url = slashes m +:+ rest ∧
     ¬ ends_with_slash stem ∧ ¬ starts_with_slash rest) ∧
  (∀ stem rest n m,
     urlparse_path endpoint = stem +:+ slashes n → url = slashes m +:+ rest →
     ¬ ends_with_slash stem → ¬ starts_with_slash rest →
     _make_connection_url urlparse_path endpoint url = stem +:+ "/" +:+ rest) ∧
  (∀ endpoint', urlparse_path endpoint' = urlparse_path endpoint →
     _make_connection_url urlparse_path endpoint' url
       = _make_connection_url urlparse_path endpoint url).
Proof.
  split_and!.
  - destruct (rstrip_slash_split (urlparse_path endpoint)) as [n Hn].
    destruct (lstrip_slash_split url) as [m Hm].
    exists (rstrip_slash (urlparse_path endpoint)), (lstrip_slash url), n, m.
    split_and!; try done.
    + apply rstrip_slash_no_trailing.
    + apply lstrip_slash_no_leading.
  - intros stem rest n m Hp -> Hstem Hrest.
    unfold _make_connection_url.
    rewrite Hp, rstrip_slash_app_slashes, lstrip_slash_slashes.
    by rewrite rstrip_slash_id, lstrip_slash_id.
  - intros endpoint' He. unfold _make_connection_url. by rewrite He.
Qed.

Lemma exactly_one_joining_slash_witness :
  _make_connection_url simple_path "http://localhost/api//" "///v1/resources"
    = "/api" +:+ "/" +:+ "v1/resources".
Proof.
  apply (proj1 (proj2 (exactly_one_joining_slash simple_path
                         "http://localhost/api//" "///v1/resources"))
           "/api" "v1/resources" 2 3).
  - reflexivity.
  - reflexivity.
  - apply (rstrip_slash_no_trailing "/api").
  - apply (lstrip_slash_no_leading "v1/resources").
Defined.

(** A base with a path of its own puts that path in front. *)
Lemma base_path_is_prefixed :
  ¬ (∀ endpoint url,
       ¬ ends_with_slash endpoint → single_leading_slash url →
       _make_connection_url simple_path endpoint url = url).
Proof.
  intros H.
  specialize (H "http://localhost/api" "/v1/resources").
  assert (_make_connection_url simple_path "http://localhost/api" "/v1/resources"
          = "/api/v1/resources") as Hrun by reflexivity.
  rewrite H in Hrun; [discriminate Hrun| |].
  - apply (rstrip_slash_no_trailing "http://localhost/api").
  - exists "v1/resources". split; [done|].
    apply (lstrip_slash_no_leading "v1/resources").
Qed.

(** C8 (amended). Against a base whose path component is empty, a path with a
    single leading slash is returned unchanged, and normalizing the result of
    a normalization again changes nothing. *)
Theorem normalized_path_unchanged (urlparse_path : string → string) (endpoint : string) :
  urlparse_path endpoint = "" →
  (∀ url, single_leading_slash url →
          _make_connection_url urlparse_path endpoint url = url) ∧
  (∀ url, _make_connection_url urlparse_path endpoint
            (_make_connection_url urlparse_path endpoint url)
          = _make_connection_url urlparse_path endpoint url).
Proof.
  intros Hp. unfold _make_connection_url. rewrite Hp. split.
  - intros url (rest & -> & Hrest). str_simpl.
    by rewrite lstrip_slash_id.
  - intros url. str_simpl.
    by rewrite (lstrip_slash_id (lstrip_slash url)) by apply lstrip_slash_no_leading.
Qed.

Lemma normalized_path_unchanged_witness :
  _make_connection_url simple_path "http://localhost" "/v1/resources" = "/v1/resources".
Proof.
  apply (proj1 (normalized_path_unchanged simple_path "http://localhost" eq_refl)).
  exists "v1/resources". split; [reflexivity|].
  apply (lstrip_slash_no_leading "v1/resources").
Defined.

(** ** The error tests of [test_http.py] *)

Example server_exception_empty_body :
  message (map_error mini_loads example_kinds 500 (Some (_get_error_body None None)))
    = "HTTPInternalServerError (HTTP 500)".
Proof. vm_compute. reflexivity. Qed.

Example server_exception_msg_only :
  message (map_error mini_loads example_kinds 500 (Some (_get_error_body (Some "test error msg") None)))
    = "test error msg".
Proof. vm_compute. reflexivity. Qed.

Example server_exception_msg_and_traceback :
  message (map_error mini_loads example_kinds 500
             (Some (_get_error_body (Some "another test error") (Some error_trace))))
    = "another test error" +:+ newline +:+ error_trace.
Proof. vm_compute. reflexivity. Qed.

Example empty_faultstring_with_debuginfo :
  message (map_error mini_loads example_kinds 500 (Some (_get_error_body (Some "") (Some "trace..."))))
    = "HTTPInternalServerError (HTTP 500)".
Proof. vm_compute. reflexivity. Qed.

Example not_found_without_body :
  map_error mini_loads example_kinds 404 None = HttpError HTTPNotFound 404 "HTTPNotFound (HTTP 404)".
Proof. vm_compute. reflexivity. Qed.

(** ** Properties of the error mapper *)

Lemma error_envelope_decodes loads body envelope :
  decodes_to loads body envelope → error_envelope loads body = envelope.
Proof.
  intros (text & members & raw & -> & Ht & Hm & Hr).
  unfold error_envelope. by rewrite Ht, Hm, Hr.
Qed.

Lemma error_message_falsy (standard_kinds : Z → option string) status envelope :
  falsy_faultstring envelope →
  error_message standard_kinds status envelope = generic_message standard_kinds status.
Proof.
  unfold falsy_faultstring, error_message.
  destruct (dict_get envelope "faultstring") as [[| | |[|c rest]| |]|]; done.
Qed.

Lemma error_envelope_degraded loads body :
  degraded loads body → falsy_faultstring (error_envelope loads body).
Proof.
  unfold error_envelope.
  destruct 1 as [|text Ht|text v Ht Hv|text members Ht Hm|text members v Ht Hm Hv
                 |text members raw Ht Hm Hr|text members raw v Ht Hm Hr Hv
                 |text members raw envelope Ht Hm Hr Hf].
  - done.
  - by rewrite Ht.
  - rewrite Ht. destruct v as [| | | | |ms]; try done. by destruct (Hv ms).
  - by rewrite Ht, Hm.
  - rewrite Ht, Hm. destruct v as [| | |raw| |]; try done. by destruct (Hv raw).
  - by rewrite Ht, Hm, Hr.
  - rewrite Ht, Hm, Hr. destruct v as [| | | | |ms]; try done. by destruct (Hv ms).
  - by rewrite Ht, Hm, Hr.
Qed.

(** C1. A body that is absent or malformed, or whose fault string is missing
    or false (the empty string included, whatever the debug info), is mapped
    to an error value with the generic message made of the name of the kind
    and the code; for 500 that is [HTTPInternalServerError (HTTP 500)]. The
    mapper is a total function: it gives a value for every input. *)
Theorem degraded_body_generic_message (loads : string → option json)
    (standard_kinds : Z → option string) (status : Z) (body : option string) :
  (degraded loads body →
   map_error loads standard_kinds status body =
     HttpError (kind_of_status standard_kinds status) status
       (reason_phrase (kind_of_status standard_kinds status)
          +:+ " (HTTP " +:+ pretty status +:+ ")")) ∧
  (∀ envelope debuginfo,
     decodes_to loads body envelope →
     dict_get envelope "faultstring" = Some (JString "") →
     dict_get envelope "debuginfo" = Some (JString debuginfo) →
     message (map_error loads standard_kinds status body)
       = generic_message standard_kinds status) ∧
  generic_message standard_kinds 500 = "HTTPInternalServerError (HTTP 500)".
Proof.
  split_and!.
  - intros Hd. unfold map_error. f_equal.
    by apply error_message_falsy, error_envelope_degraded.
  - intros envelope debuginfo Hdec Hf _. unfold map_error. simpl.
    rewrite (error_envelope_decodes _ _ _ Hdec).
    apply error_message_falsy. unfold falsy_faultstring. by rewrite Hf.
  - vm_compute. reflexivity.
Qed.

Lemma degraded_body_generic_message_witness :
  map_error mini_loads example_kinds 500 (Some (_get_error_body (Some "") (Some "trace..."))) =
    HttpError (kind_of_status example_kinds 500) 500
      (reason_phrase (kind_of_status example_kinds 500)
         +:+ " (HTTP " +:+ pretty 500%Z +:+ ")").
Proof.
  apply (proj1 (degraded_body_generic_message mini_loads example_kinds 500
                  (Some (_get_error_body (Some "") (Some "trace..."))))).
  eapply (faultstring_falsy mini_loads).
  - vm_compute. reflexivity.
  - vm_compute. reflexivity.
  - vm_compute. reflexivity.
  - vm_compute. reflexivity.
Defined.



Example boom_with_trace :
  message (map_error mini_loads example_kinds 500
             (Some (_get_error_body (Some "boom") (Some "trace..."))))
    = "boom" +:+ newline +:+ "trace...".
Proof. vm_compute. reflexivity. Qed.

(** C6. The kind of the mapped error is a function of the status code alone;
    the body and its decoding play no part. 404 gives the not-found kind, 409
    the conflict kind, 500 the internal server error kind, every other
    standard code the kind of that code, and a code that is not recognised
    the generic kind with that code. There is one kind per code: different
    codes give different kinds. *)
Theorem kind_from_status_only (loads loads' : string → option json)
    (standard_kinds : Z → option string) (status : Z) (body body' : option string) :
  kind (map_error loads standard_kinds status body)
    = kind (map_error loads' standard_kinds status body') ∧
  code (map_error loads standard_kinds status body) = status ∧
  kind (map_error loads standard_kinds 404 body) = HTTPNotFound ∧
  kind (map_error loads standard_kinds 409 body) = HTTPConflict ∧
  kind (map_error loads standard_kinds 500 body) = HTTPInternalServerError ∧
  (status ≠ 404%Z → status ≠ 409%Z → status ≠ 500%Z →
   ∀ name, standard_kinds status = Some name →
     kind (map_error loads standard_kinds status body) = HTTPStandard status name) ∧
  (status ≠ 404%Z → status ≠ 409%Z → status ≠ 500%Z →
   standard_kinds status = None →
   kind (map_error loads standard_kinds status body) = HTTPException status) ∧
  (∀ status',
     kind (map_error loads standard_kinds status' body')
       = kind (map_error loads standard_kinds status body) →
     status' = status).
Proof.
  split_and!; try done.
  - intros H1 H2 H3 name Hname. simpl. unfold kind_of_status.
    by rewrite !decide_False, Hname by done.
  - intros H1 H2 H3 Hnone. simpl. unfold kind_of_status.
    by rewrite !decide_False, Hnone by done.
  - intros status'. simpl. unfold kind_of_status.
    repeat case_decide; repeat case_match;
      intros Hk; try discriminate Hk; congruence.
Qed.

Lemma kind_from_status_only_witness :
  kind (map_error mini_loads example_kinds 400 (Some "bad request"))
    = HTTPStandard 400 "HTTPBadRequest" ∧
  kind (map_error mini_loads example_kinds 418 (Some "I'm a teapot")) = HTTPException 418.
Proof.
  split.
  - apply (proj1 (proj2 (proj2 (proj2 (proj2 (proj2
             (kind_from_status_only mini_loads mini_loads example_kinds 400
                (Some "bad request") None))))))); [discriminate..|reflexivity].
  - apply (proj1 (proj2 (proj2 (proj2 (proj2 (proj2 (proj2
             (kind_from_status_only mini_loads mini_loads example_kinds 418
                (Some "I'm a teapot") None)))))))); [discriminate..|reflexivity].
Defined.

Example bad_request_has_its_kind :
  map_error mini_loads example_kinds 400 None
    = HttpError (HTTPStandard 400 "HTTPBadRequest") 400 "HTTPBadRequest (HTTP 400)".
Proof. vm_compute. reflexivity. Qed.

End HTTPProofs.

Module ResourceFieldsMore.
Import ResourceFields ResourceFieldsProofs.

(** ** The constructor as a whole *)

Lemma not_has_unknown_subseteq (param_fields field_ids : list string) :
  ¬ has_unknown param_fields field_ids ↔ param_fields ⊆ field_ids.
Proof.
  unfold has_unknown. split.
  - intros Hn x Hx. destruct (decide (x ∈ field_ids)) as [|Hno]; [done|].
    exfalso. apply Hn. eauto.
  - intros Hsub (x & Hx & Hno). by apply Hno, Hsub.
Qed.

Lemma Resource_run field_ids sort_excluded override_labels :
  Resource field_ids sort_excluded override_labels =
    if decide (unknown_ids (override_keys override_labels) field_ids = ∅) then
      match comprehension (label_for (overrides override_labels)) field_ids with
      | Raised e => Raised e
      | Returned ls =>
          if decide (unknown_ids (excluded sort_excluded) field_ids = ∅) then
            match comprehension (label_for (overrides override_labels))
                    (filter (λ x, x ∉ excluded sort_excluded) field_ids) with
            | Raised e => Raised e
            | Returned sls =>
                Returned (Instance (Some field_ids) (Some ls)
                            (Some (filter (λ x, x ∉ excluded sort_excluded) field_ids))
                            (Some sls))
            end
          else Raised (ValueError "sort_excluded"
                         (unknown_ids (excluded sort_excluded) field_ids))
      end
    else Raised (ValueError "override_labels"
                   (unknown_ids (override_keys override_labels) field_ids)).
Proof.
  unfold Resource. rewrite init_run.
  case_decide; [|done].
  destruct (comprehension _ field_ids); [|done].
  case_decide; [|done]. simpl.
  by destruct (comprehension _ _).
Qed.

Lemma Resource_Returned_intro field_ids sort_excluded override_labels :
  override_keys override_labels ⊆ field_ids →
  Forall (resolves (overrides override_labels)) field_ids →
  excluded sort_excluded ⊆ field_ids →
  ∃ ls sls,
    Resource field_ids sort_excluded override_labels =
      Returned (Instance (Some field_ids) (Some ls)
                  (Some (filter (λ x, x ∉ excluded sort_excluded) field_ids)) (Some sls)) ∧
    Forall2 (is_label (overrides override_labels)) field_ids ls ∧
    Forall2 (is_label (overrides override_labels))
      (filter (λ x, x ∉ excluded sort_excluded) field_ids) sls.
Proof.
  intros Ho%not_has_unknown_subseteq Hall Hs%not_has_unknown_subseteq.
  rewrite Resource_init.
  destruct (init_ending field_ids sort_excluded override_labels) as
    [Ho'|pre k post Ho' -> Hpre Hk|ls Ho' Hls Hs'|ls sls Ho' Hls Hs' Hsls];
    [done| |done|by eauto].
  exfalso. apply Hk. rewrite Forall_app, Forall_cons in Hall. tauto.
Qed.

(** X1. The call returns exactly when the keys of [override_labels] and the
    members of [sort_excluded] are all in [field_ids] and every identifier of
    [field_ids] has a non-empty override or an entry of [FIELDS]. *)
Theorem Resource_returns_iff field_ids sort_excluded override_labels :
  (∃ r, Resource field_ids sort_excluded override_labels = Returned r) ↔
  override_keys override_labels ⊆ field_ids ∧
  Forall (resolves (overrides override_labels)) field_ids ∧
  excluded sort_excluded ⊆ field_ids.
Proof.
  split.
  - intros [r (ls & sls & _ & Ho & Hs & Hls & _)%Resource_Returned].
    split_and!.
    + by apply not_has_unknown_subseteq.
    + by eapply Forall2_is_label_resolves.
    + by apply not_has_unknown_subseteq.
  - intros (Ho & Hall & Hs).
    destruct (Resource_Returned_intro field_ids sort_excluded override_labels)
      as (ls & sls & Hr & _); eauto.
Qed.

Lemma Resource_returns_iff_witness :
  ∃ r, Resource ["name"; "hosts"] (Some ["hosts"])
         (Some {["name" := "Supported driver(s)"]}) = Returned r.
Proof.
  apply (proj2 (Resource_returns_iff ["name"; "hosts"] (Some ["hosts"])
                  (Some {["name" := "Supported driver(s)"]}))).
  split_and!.
  - intros x [v Hv]%elem_of_keys.
    apply lookup_singleton_Some in Hv as [<- _]. apply list_elem_of_here.
  - repeat (apply Forall_cons_2; [right; vm_compute; eauto|]). apply Forall_nil_2.
  - intros x ->%list_elem_of_singleton.
    apply list_elem_of_further, list_elem_of_here.
Defined.

(** X2. A KeyError names the first identifier of [field_ids], in the order
    given, that has neither a non-empty override nor an entry of [FIELDS]:
    every identifier before it has a label. *)
Theorem KeyError_names_first_without_label field_ids sort_excluded override_labels k :
  Resource field_ids sort_excluded override_labels = Raised (KeyError k) →
  ∃ pre post,
    field_ids = pre ++ k :: post ∧
    Forall (λ x, is_Some (FIELDS !! x) ∨
                 ∃ l, overrides override_labels !! x = Some l ∧ l ≠ "") pre ∧
    FIELDS !! k = None ∧
    (overrides override_labels !! k = None ∨ overrides override_labels !! k = Some "").
Proof.
  intros [(? & [=])|[(_ & pre & k' & post & -> & Hpre & Hk & [= <-])|(_ & _ & _ & [=])]]%Resource_Raised.
  exists pre, post. split_and!; try done.
  - eapply Forall_impl; [done|]. intros x [?|?]; eauto.
  - by apply not_resolves_iff in Hk as [? _].
  - apply not_resolves_iff in Hk as [_ Hno].
    destruct (overrides override_labels !! k) as [[|c l]|] eqn:Hl; eauto.
    exfalso. apply Hno. eauto.
Qed.

Lemma KeyError_names_first_without_label_witness :
  ∃ pre post,
    ["uuid"; "zzz"; "name"; "yyy"] = pre ++ "zzz" :: post ∧
    Forall (λ x, is_Some (FIELDS !! x) ∨
                 ∃ l, overrides None !! x = Some l ∧ l ≠ "") pre ∧
    FIELDS !! "zzz" = None ∧
    (overrides None !! "zzz" = None ∨ overrides None !! "zzz" = Some "").
Proof.
  apply (KeyError_names_first_without_label ["uuid"; "zzz"; "name"; "yyy"] None None "zzz").
  vm_compute. reflexivity.
Defined.

(** ** The optional arguments *)

Lemma unknown_ids_ext (param_fields param_fields' field_ids : list string) :
  (∀ x, x ∈ param_fields ↔ x ∈ param_fields') →
  unknown_ids param_fields field_ids = unknown_ids param_fields' field_ids.
Proof.
  intros Hiff. unfold unknown_ids. apply set_eq. intros x.
  rewrite !elem_of_difference, !elem_of_list_to_set, Hiff. done.
Qed.

(** X3. Leaving an optional argument out is the same as passing it empty:
    [sort_excluded=None] behaves as [sort_excluded=[]] and
    [override_labels=None] as [override_labels={}]. *)
Theorem omitted_argument_is_empty_argument field_ids sort_excluded override_labels :
  Resource field_ids None override_labels = Resource field_ids (Some []) override_labels ∧
  Resource field_ids sort_excluded None = Resource field_ids sort_excluded (Some ∅).
Proof.
  split.
  - by rewrite !Resource_run.
  - rewrite !Resource_run. simpl. unfold keys. by rewrite map_to_list_empty.
Qed.

(** X4. [sort_excluded] counts as a set: with two lists that have the same
    members, in any order and with any repetitions, the call returns the same
    instance, or raises KeyError with the same key, or raises ValueError
    about the same parameter and the same set of unknown identifiers. The
    order in which the text of the ValueError lists that set is not fixed by
    the members, and nothing is said about it. *)
Theorem sort_excluded_is_a_set field_ids (excluded1 excluded2 : list string) override_labels :
  (∀ x, x ∈ excluded1 ↔ x ∈ excluded2) →
  (∀ r, Resource field_ids (Some excluded1) override_labels = Returned r ↔
        Resource field_ids (Some excluded2) override_labels = Returned r) ∧
  (∀ k, Resource field_ids (Some excluded1) override_labels = Raised (KeyError k) ↔
        Resource field_ids (Some excluded2) override_labels = Raised (KeyError k)) ∧
  (∀ param_name not_existing,
     Resource field_ids (Some excluded1) override_labels
       = Raised (ValueError param_name not_existing) ↔
     Resource field_ids (Some excluded2) override_labels
       = Raised (ValueError param_name not_existing)).
Proof.
  intros Hiff.
  assert (Resource field_ids (Some excluded1) override_labels
          = Resource field_ids (Some excluded2) override_labels) as ->; [|done].
  rewrite !Resource_run. simpl.
  rewrite (unknown_ids_ext excluded1 excluded2) by done.
  rewrite (list_filter_iff (λ x, x ∉ excluded1) (λ x, x ∉ excluded2)); [done|].
  intros x. by rewrite Hiff.
Qed.

Lemma sort_excluded_is_a_set_witness :
  Resource ["uuid"; "extra"; "name"] (Some ["extra"; "name"]) None
    = Returned (Instance (Some ["uuid"; "extra"; "name"]) (Some ["UUID"; "Extra"; "Name"])
                  (Some ["uuid"]) (Some ["UUID"])).
Proof.
  assert (∀ x, x ∈ ["name"; "extra"; "name"] ↔ x ∈ ["extra"; "name"]) as Hsame.
  { intros x. rewrite !elem_of_cons. tauto. }
  apply (proj1 (proj1 (sort_excluded_is_a_set ["uuid"; "extra"; "name"]
                         ["name"; "extra"; "name"] ["extra"; "name"] None Hsame) _)).
  vm_compute. reflexivity.
Defined.

(** ** The sort views against the full views *)

Lemma Forall2_is_label_functional d xs ls1 ls2 :
  Forall2 (is_label d) xs ls1 → Forall2 (is_label d) xs ls2 → ls1 = ls2.
Proof.
  intros H1. revert ls2.
  induction H1 as [|x l xs ls Hl _ IH]; intros ls2 H2.
  - by inversion H2.
  - inversion H2 as [|? l' ? ls' Hl' Hls']; subst.
    f_equal; [by eapply is_label_functional|by apply IH].
Qed.

Lemma filter_all {A} (P : A → Prop) `{∀ x, Decision (P x)} (l : list A) :
  Forall P l → filter P l = l.
Proof.
  induction 1 as [|x l Hx _ IH]; [done|].
  rewrite filter_cons_True by done. by rewrite IH.
Qed.

Lemma filter_none {A} (P : A → Prop) `{∀ x, Decision (P x)} (l : list A) :
  Forall (λ x, ¬ P x) l → filter P l = [].
Proof.
  induction 1 as [|x l Hx _ IH]; [done|].
  by rewrite filter_cons_False by done.
Qed.

(** X5. The two ends of sort exclusion. When nothing is excluded the sort
    views are the full views; when every identifier of [field_ids] is
    excluded the sort views are empty. *)
Theorem nothing_or_everything_excluded field_ids sort_excluded override_labels r :
  Resource field_ids sort_excluded override_labels = Returned r →
  (excluded sort_excluded = [] →
   sort_fields r = fields r ∧ sort_labels r = labels r) ∧
  (field_ids ⊆ excluded sort_excluded →
   sort_fields r = Some [] ∧ sort_labels r = Some []).
Proof.
  intros (ls & sls & -> & _ & _ & Hls & Hsls)%Resource_Returned. split.
  - intros He. simpl. rewrite He in Hsls |- *.
    rewrite filter_all in Hsls |- *
      by (apply Forall_forall; intros x _; apply not_elem_of_nil).
    split; [done|]. f_equal. by eapply Forall2_is_label_functional.
  - intros Hall. simpl.
    rewrite filter_none in Hsls |- *
      by (apply Forall_forall; intros x Hx Hn; by apply Hn, Hall).
    split; [done|]. f_equal. by inversion Hsls.
Qed.

Lemma nothing_or_everything_excluded_witness :
  sort_fields (Instance (Some ["uuid"; "name"]) (Some ["UUID"; "Name"])
                 (Some []) (Some [])) = Some [] ∧
  sort_labels (Instance (Some ["uuid"; "name"]) (Some ["UUID"; "Name"])
                 (Some []) (Some [])) = Some [].
Proof.
  apply (proj2 (nothing_or_everything_excluded
                  ["uuid"; "name"] (Some ["name"; "uuid"]) None _ eq_refl)).
  intros x. simpl. rewrite !elem_of_cons. tauto.
Defined.

(** X6. The sort views are cut out of the full views together: the pairs of
    sort field and sort label are the pairs of field and label whose field is
    not excluded, in the same order. *)
Theorem sort_pairs_are_filtered_pairs field_ids sort_excluded override_labels r :
  Resource field_ids sort_excluded override_labels = Returned r →
  ∃ fs ls sfs sls,
    fields r = Some fs ∧ labels r = Some ls ∧
    sort_fields r = Some sfs ∧ sort_labels r = Some sls ∧
    zip sfs sls = filter (λ p, p.1 ∉ excluded sort_excluded) (zip fs ls).
Proof.
  intros (ls & sls & -> & _ & _ & Hls & Hsls)%Resource_Returned.
  eexists _, _, _, _. split_and!; try done.
  revert sls Hsls.
  induction Hls as [|x l xs ls Hl _ IH]; intros sls Hsls; simpl.
  - by inversion Hsls.
  - destruct (decide (x ∉ excluded sort_excluded)) as [Hx|Hx].
    + rewrite filter_cons_True in Hsls |- * by done.
      rewrite (filter_cons_True _ (x, l)) by done.
      inversion Hsls as [|? l' ? sls' Hl' Hsls']; subst. simpl.
      rewrite (is_label_functional _ _ _ _ Hl' Hl). f_equal. by apply IH.
    + rewrite filter_cons_False in Hsls |- * by done.
      rewrite (filter_cons_False _ (x, l)) by done. by apply IH.
Qed.

Lemma sort_pairs_are_filtered_pairs_witness :
  ∃ fs ls sfs sls,
    fields (Instance (Some ["uuid"; "extra"; "name"]) (Some ["UUID"; "Extra"; "Name"])
              (Some ["uuid"; "name"]) (Some ["UUID"; "Name"])) = Some fs ∧
    labels (Instance (Some ["uuid"; "extra"; "name"]) (Some ["UUID"; "Extra"; "Name"])
              (Some ["uuid"; "name"]) (Some ["UUID"; "Name"])) = Some ls ∧
    sort_fields (Instance (Some ["uuid"; "extra"; "name"]) (Some ["UUID"; "Extra"; "Name"])
              (Some ["uuid"; "name"]) (Some ["UUID"; "Name"])) = Some sfs ∧
    sort_labels (Instance (Some ["uuid"; "extra"; "name"]) (Some ["UUID"; "Extra"; "Name"])
              (Some ["uuid"; "name"]) (Some ["UUID"; "Name"])) = Some sls ∧
    zip sfs sls = filter (λ p, p.1 ∉ excluded (Some ["extra"])) (zip fs ls).
Proof.
  apply (sort_pairs_are_filtered_pairs ["uuid"; "extra"; "name"] (Some ["extra"]) None).
  vm_compute. reflexivity.
Defined.

(** ** The table [FIELDS] *)

Lemma foldl_insert_lookup (items : list (string * string)) (acc : gmap string string) k v :
  NoDup items.*1 →
  (foldl (λ d kv, <[kv.1 := kv.2]> d) acc items) !! k = Some v ↔
  (k, v) ∈ items ∨ ((k ∉ items.*1) ∧ acc !! k = Some v).
Proof.
  revert acc. induction items as [|[k0 v0] items IH]; intros acc Hnd.
  - simpl. split; [intros ?; right; split; [apply not_elem_of_nil|done]|].
    intros [[]%elem_of_nil|[_ ?]]; done.
  - rewrite fmap_cons in Hnd |- *. simpl in Hnd |- *.
    apply NoDup_cons in Hnd as [Hk0 Hnd]. rewrite IH by done.
    rewrite !elem_of_cons.
    destruct (decide (k = k0)) as [->|Hne].
    + rewrite lookup_insert_eq. split.
      * intros [Hin|[Hn [= ->]]]; [left; by right|left; by left].
      * intros [[[= ->]|Hin]|[Hn _]]; [by right|by left|].
        exfalso. apply Hn. by left.
    + rewrite lookup_insert_ne by done. split.
      * intros [Hin|[Hn Ha]]; [left; by right|].
        right. split; [|done]. intros [?|?]; done.
      * intros [[[= ? ?]|Hin]|[Hn Ha]]; [done|by left|].
        right. split; [|done]. intros ?. apply Hn. by right.
Qed.

Lemma FIELDS_keys_NoDup : NoDup FIELDS_items.*1.
Proof. apply (bool_decide_unpack _). vm_compute. exact I. Qed.

Lemma FIELDS_items_nonempty : Forall (λ kv : string * string, kv.2 ≠ "") FIELDS_items.
Proof. apply (bool_decide_unpack _). vm_compute. exact I. Qed.

Lemma FIELDS_lookup_items k v : FIELDS !! k = Some v ↔ (k, v) ∈ FIELDS_items.
Proof.
  unfold FIELDS, dict_display.
  rewrite foldl_insert_lookup by apply FIELDS_keys_NoDup.
  rewrite lookup_empty. split; [|by left].
  intros [?|[_ ?]]; done.
Qed.

(** X7. No identifier is listed twice in the display of [FIELDS], so no entry
    hides another: an identifier has a label in [FIELDS] exactly when the
    pair is written in the display, and no label of the table is empty. *)
Theorem FIELDS_is_its_display :
  NoDup FIELDS_items.*1 ∧
  (∀ k v, FIELDS !! k = Some v ↔ (k, v) ∈ FIELDS_items) ∧
  (∀ k v, FIELDS !! k = Some v → v ≠ "").
Proof.
  split_and!.
  - apply FIELDS_keys_NoDup.
  - apply FIELDS_lookup_items.
  - intros k v Hkv%FIELDS_lookup_items.
    by apply (proj1 (Forall_forall _ _) FIELDS_items_nonempty (k, v)).
Qed.

Lemma FIELDS_is_its_display_witness : "Provisioning State" ≠ "".
Proof.
  apply (proj2 (proj2 FIELDS_is_its_display) "provision_state" "Provisioning State").
  vm_compute. reflexivity.
Defined.

Lemma is_label_nonempty d x l : is_label d x l → l ≠ "".
Proof.
  intros [[_ ?]|[_ Hkv%FIELDS_lookup_items]]; [done|].
  by apply (proj1 (Forall_forall _ _) FIELDS_items_nonempty (x, l)).
Qed.

(** X8. No label of a constructed Resource is empty, whatever the overrides:
    an empty override gives way to the label of [FIELDS], and no label of
    [FIELDS] is empty. *)
Theorem labels_are_never_empty field_ids sort_excluded override_labels r :
  Resource field_ids sort_excluded override_labels = Returned r →
  ∃ ls sls,
    labels r = Some ls ∧ sort_labels r = Some sls ∧
    Forall (λ l, l ≠ "") ls ∧ Forall (λ l, l ≠ "") sls.
Proof.
  intros (ls & sls & -> & _ & _ & Hls & Hsls)%Resource_Returned.
  exists ls, sls. split_and!; try done.
  - eapply Forall2_Forall_r; [done|].
    apply Forall_forall. intros x _ l. apply is_label_nonempty.
  - eapply Forall2_Forall_r; [done|].
    apply Forall_forall. intros x _ l. apply is_label_nonempty.
Qed.

Lemma labels_are_never_empty_witness :
  ∃ ls sls,
    labels (Instance (Some ["uuid"; "name"]) (Some ["UUID"; "Alias"])
              (Some ["uuid"; "name"]) (Some ["UUID"; "Alias"])) = Some ls ∧
    sort_labels (Instance (Some ["uuid"; "name"]) (Some ["UUID"; "Alias"])
              (Some ["uuid"; "name"]) (Some ["UUID"; "Alias"])) = Some sls ∧
    Forall (λ l, l ≠ "") ls ∧ Forall (λ l, l ≠ "") sls.
Proof.
  apply (labels_are_never_empty ["uuid"; "name"] None
           (Some {["uuid" := ""; "name" := "Alias"]})).
  vm_compute. reflexivity.
Defined.

(** ** Overrides *)

Lemma elem_of_override_keys override_labels x :
  x ∈ override_keys override_labels ↔ is_Some (overrides override_labels !! x).
Proof.
  destruct override_labels as [d|]; simpl.
  - apply elem_of_keys.
  - rewrite lookup_empty, elem_of_nil. split; [done|]. by intros [? ?].
Qed.

Lemma is_label_insert_ne d k v x l :
  x ≠ k → is_label (<[k:=v]> d) x l ↔ is_label d x l.
Proof. intros Hne. unfold is_label. by rewrite lookup_insert_ne. Qed.

(** X9. Adding or replacing the override of one identifier of [field_ids] by
    a non-empty label keeps the construction successful, leaves the two field
    views as they are, and changes the labels at the positions of that
    identifier only, where the new label stands. *)
Theorem override_changes_only_its_field field_ids sort_excluded override_labels r k v :
  Resource field_ids sort_excluded override_labels = Returned r →
  k ∈ field_ids → v ≠ "" →
  ∃ r' ls ls',
    Resource field_ids sort_excluded (Some (<[k:=v]> (overrides override_labels)))
      = Returned r' ∧
    fields r' = fields r ∧ sort_fields r' = sort_fields r ∧
    labels r = Some ls ∧ labels r' = Some ls' ∧
    ∀ i x, field_ids !! i = Some x →
           ls' !! i = if decide (x = k) then Some v else ls !! i.
Proof.
  intros (ls & sls & -> & Ho & Hs & Hls & _)%Resource_Returned Hk Hv.
  destruct (Resource_Returned_intro field_ids sort_excluded
              (Some (<[k:=v]> (overrides override_labels))))
    as (ls' & sls' & Hr' & Hls' & _).
  - intros x [w Hw]%elem_of_keys.
    destruct (decide (x = k)) as [->|Hne]; [done|].
    rewrite lookup_insert_ne in Hw by done.
    apply not_has_unknown_subseteq in Ho. apply Ho, elem_of_override_keys. eauto.
  - apply Forall2_is_label_resolves in Hls.
    eapply Forall_impl; [done|]. intros x Hx. simpl.
    destruct (decide (x = k)) as [->|Hne].
    + left. exists v. by rewrite lookup_insert_eq.
    + destruct Hx as [(l & Hl & ?)|?]; [left|by right].
      exists l. by rewrite lookup_insert_ne.
  - by apply not_has_unknown_subseteq.
  - eexists _, ls, ls'. split; [done|]. split_and!; try done.
    intros i x Hi. simpl in Hls'.
    destruct (Forall2_lookup_l _ _ _ _ _ Hls Hi) as (l & Hl & Hrule).
    destruct (Forall2_lookup_l _ _ _ _ _ Hls' Hi) as (l' & Hl' & Hrule').
    rewrite Hl'. case_decide as Hx.
    + subst x. f_equal. eapply is_label_functional; [done|].
      left. by rewrite lookup_insert_eq.
    + rewrite Hl. f_equal. apply is_label_insert_ne in Hrule'; [|done].
      by eapply is_label_functional.
Qed.

Lemma override_changes_only_its_field_witness :
  ∃ r' ls ls',
    Resource ["name"; "hosts"; "name"] None (Some (<["name":="Supported driver(s)"]> (overrides None)))
      = Returned r' ∧
    fields r' = fields (Instance (Some ["name"; "hosts"; "name"])
                          (Some ["Name"; "Active host(s)"; "Name"])
                          (Some ["name"; "hosts"; "name"])
                          (Some ["Name"; "Active host(s)"; "Name"])) ∧
    sort_fields r' = sort_fields (Instance (Some ["name"; "hosts"; "name"])
                          (Some ["Name"; "Active host(s)"; "Name"])
                          (Some ["name"; "hosts"; "name"])
                          (Some ["Name"; "Active host(s)"; "Name"])) ∧
    labels (Instance (Some ["name"; "hosts"; "name"])
              (Some ["Name"; "Active host(s)"; "Name"])
              (Some ["name"; "hosts"; "name"])
              (Some ["Name"; "Active host(s)"; "Name"])) = Some ls ∧
    labels r' = Some ls' ∧
    ∀ i x, ["name"; "hosts"; "name"] !! i = Some x →
           ls' !! i = if decide (x = "name") then Some "Supported driver(s)" else ls !! i.
Proof.
  apply (override_changes_only_its_field ["name"; "hosts"; "name"] None None _
           "name" "Supported driver(s)").
  - vm_compute. reflexivity.
  - apply list_elem_of_here.
  - discriminate.
Defined.

(** ** Edge cases and error text *)

(** X10. With an empty [field_ids] the call returns only when nothing is
    excluded and nothing is overridden, and all four views are then empty;
    any member of [sort_excluded] or key of [override_labels] is unknown. *)
Theorem empty_field_ids sort_excluded override_labels r :
  Resource [] sort_excluded override_labels = Returned r ↔
  excluded sort_excluded = [] ∧ overrides override_labels = ∅ ∧
  r = Instance (Some []) (Some []) (Some []) (Some []).
Proof.
  split.
  - intros (ls & sls & -> & Ho%not_has_unknown_subseteq
            & Hs%not_has_unknown_subseteq & Hls & Hsls)%Resource_Returned.
    split_and!.
    + destruct (excluded sort_excluded) as [|x l]; [done|].
      by destruct (not_elem_of_nil x); apply Hs, list_elem_of_here.
    + apply map_empty. intros x.
      destruct (overrides override_labels !! x) as [w|] eqn:Hw; [|done].
      destruct (not_elem_of_nil x). apply Ho, elem_of_override_keys. eauto.
    + simpl in Hsls. inversion Hls. inversion Hsls. done.
  - intros (He & Hd & ->).
    destruct (Resource_Returned_intro [] sort_excluded override_labels)
      as (ls & sls & Hr & Hls & Hsls).
    + intros x [w Hw]%elem_of_override_keys. by rewrite Hd, lookup_empty in Hw.
    + constructor.
    + by rewrite He.
    + rewrite Hr. simpl in Hsls. inversion Hls. inversion Hsls. by rewrite He.
Qed.

Lemma empty_field_ids_witness :
  excluded (Some []) = [] ∧ overrides None = ∅ ∧
  Instance (Some []) (Some []) (Some []) (Some [])
    = Instance (Some []) (Some []) (Some []) (Some []).
Proof.
  apply (proj1 (empty_field_ids (Some []) None _)).
  vm_compute. reflexivity.
Defined.

(** X11. Every text that a ValueError of the call may have is the name of
    the parameter at fault, the fixed sentence, and the unknown identifiers of
    that parameter joined by a comma and a space: each of them once, however
    often the parameter repeats it, and at least one; the order of the list
    is left open. *)
Theorem ValueError_lists_each_unknown_once
    field_ids sort_excluded override_labels param_name not_existing msg :
  Resource field_ids sort_excluded override_labels
    = Raised (ValueError param_name not_existing) →
  ValueError_text param_name not_existing msg →
  ∃ param_fields listed,
    ((param_name = "override_labels" ∧ param_fields = override_keys override_labels) ∨
     (param_name = "sort_excluded" ∧ param_fields = excluded sort_excluded)) ∧
    NoDup listed ∧ listed ≠ [] ∧
    (∀ x, x ∈ listed ↔ x ∈ param_fields ∧ x ∉ field_ids) ∧
    msg = param_name
            +:+ " specified with value not contained in field_ids.  Unknown value(s): "
            +:+ join ", " listed.
Proof.
  intros [(Hu & [= -> ->])|[(? & ? & ? & ? & ? & ? & ? & [=])|(_ & _ & Hu & [= -> ->])]]%Resource_Raised
         Hmsg.
  - destruct (ValueError_text_listing _ _ _ _ Hu Hmsg) as (listed & ? & ? & ? & ?).
    exists (override_keys override_labels), listed. split_and!; eauto.
  - destruct (ValueError_text_listing _ _ _ _ Hu Hmsg) as (listed & ? & ? & ? & ?).
    exists (excluded sort_excluded), listed. split_and!; eauto.
Qed.

Lemma ValueError_lists_each_unknown_once_witness :
  ∃ param_fields listed,
    (("sort_excluded" = "override_labels" ∧ param_fields = override_keys None) ∨
     ("sort_excluded" = "sort_excluded" ∧
      param_fields = excluded (Some ["bogus"; "uuid"; "zzz"; "bogus"]))) ∧
    NoDup listed ∧ listed ≠ [] ∧
    (∀ x, x ∈ listed ↔ x ∈ param_fields ∧ x ∉ ["uuid"]) ∧
    "sort_excluded specified with value not contained in field_ids.  Unknown value(s): bogus, zzz"
      = "sort_excluded"
          +:+ " specified with value not contained in field_ids.  Unknown value(s): "
          +:+ join ", " listed.
Proof.
  apply (ValueError_lists_each_unknown_once ["uuid"] (Some ["bogus"; "uuid"; "zzz"; "bogus"]) None
           "sort_excluded" (unknown_ids ["bogus"; "uuid"; "zzz"; "bogus"] ["uuid"])).
  - vm_compute. reflexivity.
  - exists ["bogus"; "zzz"]. split; [|reflexivity]. split.
    + apply NoDup_cons_2; [|apply NoDup_singleton].
      by intros ?%list_elem_of_singleton.
    + intros x. unfold unknown_ids.
      rewrite elem_of_difference, !elem_of_list_to_set, !elem_of_cons, !elem_of_nil.
      split.
      * intros [->|[->|[]]]; (split; [tauto|]); by intros [?|[]].
      * intros [[->|[->|[->|[->|[]]]]] Hn]; tauto.
Defined.

Lemma sublist_filter_impl {A} (P Q : A → Prop)
    `{∀ x, Decision (P x)} `{∀ x, Decision (Q x)} (l : list A) :
  (∀ x, P x → Q x) → sublist (filter P l) (filter Q l).
Proof.
  intros Himpl. induction l as [|x l IH]; [done|].
  destruct (decide (P x)) as [HP|HP].
  - rewrite !filter_cons_True by auto. by constructor.
  - rewrite (filter_cons_False P) by done.
    destruct (decide (Q x)).
    + rewrite filter_cons_True by done. by constructor.
    + by rewrite filter_cons_False by done.
Qed.

(** X12. Excluding more never makes more fields sortable: when both calls
    return and every member of the first [sort_excluded] is a member of the
    second, the sort fields of the second are a subsequence of the sort
    fields of the first, and so are the sort labels. *)
Theorem excluding_more_keeps_less field_ids (excluded1 excluded2 : option (list string))
    override_labels r1 r2 :
  Resource field_ids excluded1 override_labels = Returned r1 →
  Resource field_ids excluded2 override_labels = Returned r2 →
  excluded excluded1 ⊆ excluded excluded2 →
  ∃ sfs1 sfs2 sls1 sls2,
    sort_fields r1 = Some sfs1 ∧ sort_fields r2 = Some sfs2 ∧
    sort_labels r1 = Some sls1 ∧ sort_labels r2 = Some sls2 ∧
    sublist sfs2 sfs1 ∧ sublist sls2 sls1.
Proof.
  intros (ls1 & sls1 & -> & _ & _ & Hls1 & Hsls1)%Resource_Returned
         (ls2 & sls2 & -> & _ & _ & Hls2 & Hsls2)%Resource_Returned Hsub.
  eexists _, _, _, _. split_and!; try done.
  - apply sublist_filter_impl. intros x Hx Hin. by apply Hx, Hsub.
  - clear Hls2. revert sls1 sls2 Hsls1 Hsls2.
    induction Hls1 as [|x l xs ls Hl _ IH]; intros sls1 sls2 H1 H2.
    + inversion H1. inversion H2. done.
    + destruct (decide (x ∉ excluded excluded2)) as [Hx2|Hx2].
      * assert (x ∉ excluded excluded1) as Hx1 by (intros ?; by apply Hx2, Hsub).
        rewrite filter_cons_True in H1, H2 by done.
        inversion H1 as [|? l1 ? sls1' Hl1 H1']; subst.
        inversion H2 as [|? l2 ? sls2' Hl2 H2']; subst.
        rewrite (is_label_functional _ _ _ _ Hl1 Hl), (is_label_functional _ _ _ _ Hl2 Hl).
        constructor. by apply IH.
      * rewrite filter_cons_False in H2 by done.
        destruct (decide (x ∉ excluded excluded1)) as [Hx1|Hx1].
        -- rewrite filter_cons_True in H1 by done.
           inversion H1 as [|? l1 ? sls1' Hl1 H1']; subst.
           constructor. by apply IH.
        -- rewrite filter_cons_False in H1 by done. by apply IH.
Qed.

Lemma excluding_more_keeps_less_witness :
  ∃ sfs1 sfs2 sls1 sls2,
    sort_fields (Instance (Some ["uuid"; "extra"; "name"]) (Some ["UUID"; "Extra"; "Name"])
                   (Some ["uuid"; "name"]) (Some ["UUID"; "Name"])) = Some sfs1 ∧
    sort_fields (Instance (Some ["uuid"; "extra"; "name"]) (Some ["UUID"; "Extra"; "Name"])
                   (Some ["uuid"]) (Some ["UUID"])) = Some sfs2 ∧
    sort_labels (Instance (Some ["uuid"; "extra"; "name"]) (Some ["UUID"; "Extra"; "Name"])
                   (Some ["uuid"; "name"]) (Some ["UUID"; "Name"])) = Some sls1 ∧
    sort_labels (Instance (Some ["uuid"; "extra"; "name"]) (Some ["UUID"; "Extra"; "Name"])
                   (Some ["uuid"]) (Some ["UUID"])) = Some sls2 ∧
    sublist sfs2 sfs1 ∧ sublist sls2 sls1.
Proof.
  apply (excluding_more_keeps_less ["uuid"; "extra"; "name"]
           (Some ["extra"]) (Some ["name"; "extra"]) None).
  - vm_compute. reflexivity.
  - vm_compute. reflexivity.
  - intros x. simpl. rewrite !elem_of_cons. tauto.
Defined.

(** ** The order of [field_ids] *)

Lemma zip_labels d xs ls :
  Forall2 (is_label d) xs ls →
  zip xs ls =
    (λ x, (x, match label_for d x with Returned l => l | Raised _ => "" end)) <$> xs.
Proof.
  induction 1 as [|x l xs ls Hl _ IH]; [done|].
  simpl. rewrite IH. apply label_for_Returned in Hl. by rewrite Hl.
Qed.

(** X15. The order of [field_ids] decides the order of the columns and
    nothing else: when the call returns for a list of identifiers it returns
    for every rearrangement of the list, and the pairs of field and label,
    and of sort field and sort label, are the same ones rearranged. *)
Theorem reordering_field_ids_reorders_columns
    field_ids field_ids' sort_excluded override_labels r :
  field_ids ≡ₚ field_ids' →
  Resource field_ids sort_excluded override_labels = Returned r →
  ∃ r' fs ls sfs sls fs' ls' sfs' sls',
    Resource field_ids' sort_excluded override_labels = Returned r' ∧
    fields r = Some fs ∧ labels r = Some ls ∧
    sort_fields r = Some sfs ∧ sort_labels r = Some sls ∧
    fields r' = Some fs' ∧ labels r' = Some ls' ∧
    sort_fields r' = Some sfs' ∧ sort_labels r' = Some sls' ∧
    fs' = field_ids' ∧
    zip fs' ls' ≡ₚ zip fs ls ∧ zip sfs' sls' ≡ₚ zip sfs sls.
Proof.
  intros Hperm (ls & sls & -> & Ho%not_has_unknown_subseteq
                & Hs%not_has_unknown_subseteq & Hls & Hsls)%Resource_Returned.
  destruct (Resource_Returned_intro field_ids' sort_excluded override_labels)
    as (ls' & sls' & Hr' & Hls' & Hsls').
  - intros x Hx. rewrite <- Hperm. by apply Ho.
  - rewrite <- Hperm. by eapply Forall2_is_label_resolves.
  - intros x Hx. rewrite <- Hperm. by apply Hs.
  - eexists _, _, _, _, _, _, _, _, _. split; [done|].
    split_and!; try done.
    + rewrite (zip_labels _ _ _ Hls), (zip_labels _ _ _ Hls'). by rewrite Hperm.
    + rewrite (zip_labels _ _ _ Hsls), (zip_labels _ _ _ Hsls'). by rewrite Hperm.
Qed.

Lemma reordering_field_ids_reorders_columns_witness :
  ∃ r' fs ls sfs sls fs' ls' sfs' sls',
    Resource ["name"; "extra"; "uuid"] (Some ["extra"]) None = Returned r' ∧
    fields (Instance (Some ["uuid"; "extra"; "name"]) (Some ["UUID"; "Extra"; "Name"])
              (Some ["uuid"; "name"]) (Some ["UUID"; "Name"])) = Some fs ∧
    labels (Instance (Some ["uuid"; "extra"; "name"]) (Some ["UUID"; "Extra"; "Name"])
              (Some ["uuid"; "name"]) (Some ["UUID"; "Name"])) = Some ls ∧
    sort_fields (Instance (Some ["uuid"; "extra"; "name"]) (Some ["UUID"; "Extra"; "Name"])
              (Some ["uuid"; "name"]) (Some ["UUID"; "Name"])) = Some sfs ∧
    sort_labels (Instance (Some ["uuid"; "extra"; "name"]) (Some ["UUID"; "Extra"; "Name"])
              (Some ["uuid"; "name"]) (Some ["UUID"; "Name"])) = Some sls ∧
    fields r' = Some fs' ∧ labels r' = Some ls' ∧
    sort_fields r' = Some sfs' ∧ sort_labels r' = Some sls' ∧
    fs' = ["name"; "extra"; "uuid"] ∧
    zip fs' ls' ≡ₚ zip fs ls ∧ zip sfs' sls' ≡ₚ zip sfs sls.
Proof.
  apply (reordering_field_ids_reorders_columns
           ["uuid"; "extra"; "name"] ["name"; "extra"; "uuid"] (Some ["extra"]) None).
  - etrans; [apply (Permutation_app_comm ["uuid"] ["extra"; "name"])|].
    apply perm_swap.
  - vm_compute. reflexivity.
Defined.

(** ** The resources of the module *)

(** X13. Importing the module raises nothing: each of its sixteen calls of
    [Resource] returns, in the order of the module body. In every one of
    these resources each identifier is a key of [FIELDS], as the docstring
    asks, no identifier comes twice and no two columns share a label. *)
Theorem import_module_returns :
  ∃ namespace,
    import_module = Returned namespace ∧
    namespace.*1 = module_body.*1 ∧
    Forall (λ binding : string * instance,
              ∃ fs ls sfs sls,
                fields binding.2 = Some fs ∧ labels binding.2 = Some ls ∧
                sort_fields binding.2 = Some sfs ∧ sort_labels binding.2 = Some sls ∧
                Forall (λ x, is_Some (FIELDS !! x)) fs ∧ NoDup fs ∧ NoDup ls)
           namespace.
Proof.
  eexists. split; [vm_compute; reflexivity|]. split; [vm_compute; reflexivity|].
  repeat (apply Forall_cons_2;
    [eexists _, _, _, _; split_and!; try reflexivity;
     apply (bool_decide_unpack _); vm_compute; exact I|]).
  apply Forall_nil_2.
Qed.

(** X14. Each short resource shows columns of its detailed resource: every
    pair of field and label of the short one is a pair of the detailed one,
    and a field of the short one can be sorted on exactly when the detailed
    one can be sorted on it. *)
Theorem short_resource_within_detailed :
  Forall (λ pair : outcome instance * outcome instance,
            ∃ short detailed fs ls sfs fs' ls' sfs',
              pair.1 = Returned short ∧ pair.2 = Returned detailed ∧
              fields short = Some fs ∧ labels short = Some ls ∧
              sort_fields short = Some sfs ∧
              fields detailed = Some fs' ∧ labels detailed = Some ls' ∧
              sort_fields detailed = Some sfs' ∧
              zip fs ls ⊆ zip fs' ls' ∧
              sfs = filter (λ x, x ∈ sfs') fs)
         short_and_detailed.
Proof.
  repeat (apply Forall_cons_2;
    [eexists _, _, _, _, _, _, _, _; split_and!;
       [vm_compute; reflexivity..| |];
       [apply (bool_decide_unpack _); vm_compute; exact I|vm_compute; reflexivity]|]).
  apply Forall_nil_2.
Qed.

End ResourceFieldsMore.
